(** * The news aggregation pipeline of [pract1.py]

    A shallow embedding of [NewsFetcher.fetch_news] and of the stages of
    [NewsParser]: deduplication by link, sorting by publication date,
    sentiment scoring, subjectivity adjustment, keyword filtering and the
    orchestration in [main].

    Article records are Python dictionaries that the stages enrich in
    place, and the lists handed from stage to stage hold references to
    them.  The embedding therefore keeps an object store: a reference is
    an index into the store, a stage is a computation over the store that
    either returns or raises. *)

From Stdlib Require Import Floats.PrimFloat.
From Stdlib Require Import ZArith String Ascii Sorted Permutation Lia.
From stdpp Require Import gmap strings list.

Set Default Proof Using "Type".

(** ** Values, dictionaries, exceptions *)

(** The values that occur as members of an article record: JSON strings
    and JSON null as delivered by the news API, the label string and the
    float score written by the scorer.  A Python [str] is held as its
    UTF-8 encoding; substring search and lexicographic comparison agree
    on the encoding and on the code points. *)
Inductive value :=
| VNone
| VStr (s : string)
| VFloat (f : float).

(** A record: a dictionary with string keys. *)
Abbreviation dict := (gmap string value).

(** References into the object store. *)
Abbreviation loc := nat.

Inductive request_exception :=
| ConnectionError
| Timeout
| RetryError
| HTTPError.

Inductive exn :=
| KeyError (k : string)
| AttributeError
| TypeError
| ValueError
| UnboundLocalError (name : string)
| JSONDecodeError
| RequestException (e : request_exception)
| InvalidReference (l : loc).

(** The world a stage runs in: the store of article records, and the
    texts the sentiment classifier has been called with, oldest first. *)
Record world := World {
  heap : list dict;
  calls : list string
}.

Inductive outcome (A : Type) :=
| Return (a : A) (w : world)
| Raise (e : exn) (w : world).
Arguments Return {A} a w.
Arguments Raise {A} e w.

Definition M (A : Type) : Type := world → outcome A.

#[global] Instance M_ret : MRet M := λ A a w, Return a w.
#[global] Instance M_bind : MBind M := λ A B k m w,
  match m w with
  | Return a w' => k a w'
  | Raise e w' => Raise e w'
  end.
Definition raise {A} (e : exn) : M A := λ w, Raise e w.

(** [d[k]]: a missing key raises [KeyError]. *)
Definition dict_getitem (d : dict) (k : string) : exn + value :=
  match d !! k with
  | Some v => inr v
  | None => inl (KeyError k)
  end.

(** [d.get(k, default)]. *)
Definition dict_get (d : dict) (k : string) (default : value) : value :=
  match d !! k with
  | Some v => v
  | None => default
  end.

(** Lift a fallible pure computation. *)
Definition lift {A} (r : exn + A) : M A :=
  match r with
  | inr a => mret a
  | inl e => raise e
  end.

(** Dereference an article. *)
Definition deref (a : loc) : M dict :=
  λ w, match heap w !! a with
       | Some d => Return d w
       | None => Raise (InvalidReference a) w
       end.

(** [article[k]] *)
Definition getitem (a : loc) (k : string) : M value :=
  d ← deref a; lift (dict_getitem d k).

(** Overwrite the object behind a reference. *)
Definition store (a : loc) (d : dict) : M unit :=
  λ w, Return tt (World (<[a := d]> (heap w)) (calls w)).

(** [article[k] = v] *)
Definition setitem (a : loc) (k : string) (v : value) : M unit :=
  d ← deref a; store a (<[k := v]> d).

(** A dictionary display [{...}] creates a new object. *)
Definition alloc (d : dict) : M loc :=
  λ w, Return (length (heap w)) (World (heap w ++ [d]) (calls w)).

(** ** NewsFetcher *)

(** What the transport hands back to [fetch_news].  [session.get] either
    raises a request exception (connection failure, timeout, retries
    exhausted on a status of the force list) or returns a response. *)
Inductive json_body :=
| Undecodable
| Body (articles : option (list dict)).

Record response := Response {
  status_code : Z;
  body : json_body
}.

Inductive get_outcome :=
| GetRaises (e : request_exception)
| GetReturns (r : response).

(** [response.raise_for_status()] raises [HTTPError] on 4xx and 5xx. *)
Definition is_error_status (r : response) : bool :=
  (400 <=? status_code r)%Z && (status_code r <? 600)%Z.

(** The [try] block of [fetch_news]: the binding of the local variable
    [response] when the block is left, and the exception it is left
    with, if any. *)
Definition fetch_try (get : get_outcome)
  : option response * option request_exception :=
  match get with
  | GetRaises e => (None, Some e)
  | GetReturns r =>
      if is_error_status r then (Some r, Some HTTPError) else (Some r, None)
  end.

(** Reading a local variable; it has to be bound. *)
Definition read_local {A} (name : string) (binding : option A) : M A :=
  match binding with
  | Some v => mret v
  | None => raise (UnboundLocalError name)
  end.

(** [response.json().get('articles', [])] *)
Definition response_articles (r : response) : M (list dict) :=
  match body r with
  | Undecodable => raise JSONDecodeError
  | Body (Some l) => mret l
  | Body None => mret []
  end.

(** [{"title": title, "link": url, "published": publishedAt}] *)
Definition fetched_record (title url publishedAt : value) : dict :=
  <["published" := publishedAt]> (<["link" := url]> (<["title" := title]> ∅)).

(** One element of the list comprehension of [fetch_news]. *)
Definition fetched_article (article : dict) : M loc :=
  title ← lift (dict_getitem article "title");
  url ← lift (dict_getitem article "url");
  publishedAt ← lift (dict_getitem article "publishedAt");
  alloc (fetched_record title url publishedAt).

Fixpoint fetched_articles (articles : list dict) : M (list loc) :=
  match articles with
  | [] => mret []
  | article :: rest =>
      a ← fetched_article article;
      l ← fetched_articles rest;
      mret (a :: l)
  end.

(** [fetch_news].  The logging calls are left out: a logging handler
    reports its own failures on stderr and never raises.  What stays of
    the handler is its reading of [response]. *)
Definition fetch_news (session_get : string → get_outcome) (query : string)
  : M (list loc) :=
  let '(response, exc) := fetch_try (session_get query) in
  match exc with
  | Some e =>
      _ ← read_local "response" response;
      mret []
  | None =>
      r ← read_local "response" response;
      articles ← response_articles r;
      fetched_articles articles
  end.

Definition fetch_vish_news session_get : M (list loc) :=
  fetch_news session_get "Высшая инженерная школа".
Definition fetch_high_speed_railways session_get : M (list loc) :=
  fetch_news session_get "ВСМ".
Definition fetch_russian_railways session_get : M (list loc) :=
  fetch_news session_get "РЖД Российские Железные дороги".

(** ** Comparisons and text search *)

(** [a == b] on values.  Two floats are equal as IEEE numbers. *)
Definition py_eq (a b : value) : bool :=
  match a, b with
  | VNone, VNone => true
  | VStr s, VStr t => String.eqb s t
  | VFloat f, VFloat g => PrimFloat.eqb f g
  | _, _ => false
  end.

(** [a < b] on values: defined between two strings and between two
    floats, a [TypeError] otherwise. *)
Definition py_lt (a b : value) : exn + bool :=
  match a, b with
  | VStr s, VStr t => inr (String.ltb s t)
  | VFloat f, VFloat g => inr (PrimFloat.ltb f g)
  | _, _ => inl TypeError
  end.

(** [needle in hay] on strings. *)
Fixpoint contains (needle hay : string) : bool :=
  String.prefix needle hay ||
  match hay with
  | EmptyString => false
  | String _ hay' => contains needle hay'
  end.

(** ** Deduplication by link *)

(** [d[k] = v] on an insertion-ordered dictionary: an existing key keeps
    its place and takes the new value. *)
Fixpoint odict_set (k : value) (v : loc) (d : list (value * loc))
  : list (value * loc) :=
  match d with
  | [] => [(k, v)]
  | (k', v') :: d' =>
      if py_eq k' k then (k', v) :: d' else (k', v') :: odict_set k v d'
  end.

(** [{entry['link']: entry for entry in all_articles}], the dictionary
    built so far in [d]. *)
Fixpoint link_comprehension (all_articles : list loc) (d : list (value * loc))
  : M (list (value * loc)) :=
  match all_articles with
  | [] => mret d
  | entry :: rest =>
      k ← getitem entry "link";
      link_comprehension rest (odict_set k entry d)
  end.

(** [list({...}.values())] *)
Definition unique_by_link (all_articles : list loc) : M (list loc) :=
  d ← link_comprehension all_articles [];
  mret (d.*2).

(** ** Sorter *)

(** [sorted] first computes the key of every element. *)
Fixpoint published_keys (articles : list loc) : M (list (value * loc)) :=
  match articles with
  | [] => mret []
  | x :: rest =>
      k ← getitem x "published";
      ks ← published_keys rest;
      mret ((k, x) :: ks)
  end.

(** A stable sort into descending key order: an element moves behind a
    later one only when its key is strictly smaller. *)
Fixpoint insert_desc (x : value * loc) (l : list (value * loc))
  : exn + list (value * loc) :=
  match l with
  | [] => inr [x]
  | y :: l' =>
      match py_lt x.1 y.1 with
      | inl e => inl e
      | inr true =>
          match insert_desc x l' with
          | inl e => inl e
          | inr r => inr (y :: r)
          end
      | inr false => inr (x :: y :: l')
      end
  end.

Fixpoint sort_desc (l : list (value * loc)) : exn + list (value * loc) :=
  match l with
  | [] => inr []
  | x :: l' =>
      match sort_desc l' with
      | inl e => inl e
      | inr s => insert_desc x s
      end
  end.

(** [sorted(articles, key=lambda x: x['published'], reverse=True)] *)
Definition filter_and_sort_articles (articles : list loc) : M (list loc) :=
  keyed ← published_keys articles;
  s ← lift (sort_desc keyed);
  mret (s.*2).

(** [for article in articles: body] *)
Fixpoint for_each (body : loc → M unit) (articles : list loc) : M unit :=
  match articles with
  | [] => mret tt
  | article :: rest => body article;; for_each body rest
  end.

(** ** Subjectivity adjuster *)

(** The float literal [0.1]: the double nearest to one tenth. *)
Definition neutral_subjectivity : float := 0x1.999999999999ap-4%float.

(** The body of the loop of [adjust_subjectivity]. *)
Definition adjust_article (article : loc) : M unit :=
  sentiment ← getitem article "sentiment";
  if py_eq sentiment (VStr "NEUTRAL")
  then setitem article "subjectivity" (VFloat neutral_subjectivity)
  else mret tt.

Definition adjust_subjectivity (articles : list loc) : M (list loc) :=
  for_each adjust_article articles;; mret articles.

(** ** The result bundle of [main] *)

Record bundle := Bundle {
  unique_articles : list loc;
  analyzed_articles : list loc;
  filtered_vish : list loc;
  filtered_high_speed : list loc;
  filtered_rzd : list loc;
  final_articles : list loc
}.

Definition keywords_vish : list string :=
  ["инженерная школа"; "РУТ МИИТ"; "ВИШ"].
Definition keywords_high_speed : list string :=
  ["ВСМ"; "скоростные магистрали"; "высокоскоростной"].
Definition keywords_rzd : list string :=
  ["РЖД"; "Российские железные дороги"].

(** ** Stand-ins for the external collaborators

    [str.lower] and the sentiment classifier are not part of the program;
    the stages below take them as parameters.  For running the stages on
    concrete inputs: a lowering that covers the Latin and the basic
    Cyrillic capitals of UTF-8 text, and a classifier that answers by the
    first byte of the text. *)

Fixpoint lower_bytes (l : list N) : list N :=
  match l with
  | [] => []
  | a :: rest =>
      match rest with
      | b :: rest' =>
          if (a =? 208)%N then
            if (144 <=? b)%N && (b <=? 159)%N
            then 208%N :: (b + 32)%N :: lower_bytes rest'
            else if (160 <=? b)%N && (b <=? 175)%N
            then 209%N :: (b - 32)%N :: lower_bytes rest'
            else if (128 <=? b)%N && (b <=? 143)%N
            then 209%N :: (b + 16)%N :: lower_bytes rest'
            else a :: b :: lower_bytes rest'
          else
            (if (65 <=? a)%N && (a <=? 90)%N then a + 32 else a)%N
              :: lower_bytes rest
      | [] => [(if (65 <=? a)%N && (a <=? 90)%N then a + 32 else a)%N]
      end
  end.

Definition lower_ru (s : string) : string :=
  string_of_list_ascii
    (map ascii_of_N (lower_bytes (map N_of_ascii (list_ascii_of_string s)))).

Definition first_byte_model (text : string) : string * float :=
  match text with
  | String "+" _ => ("POSITIVE", 0x1.cp-1%float)
  | String "-" _ => ("NEGATIVE", 0x1.8p-1%float)
  | _ => ("NEUTRAL", 0x1.4p-1%float)
  end.

(** ** Sample data

    A store of three fetched records, the first and the third under one
    link; the same store after scoring with [first_byte_model]; and a
    transport that answers the first topic query with two raw records,
    the second with an error status and the third with three raw records,
    one of them under a link of the first answer. *)

Definition sample_world : world :=
  World [fetched_record (VStr "РЖД объявила тендер")
           (VStr "https://news.example/1") (VStr "2024-03-01T08:00:00Z");
         fetched_record (VStr "+ВСМ: скоростные магистрали")
           (VStr "https://news.example/2") (VStr "2024-03-02T09:30:00Z");
         fetched_record (VStr "-Погода")
           (VStr "https://news.example/1") (VStr "2024-03-02T09:30:00Z")]
        [].

Definition sample_scored : world :=
  World [<["subjectivity" := VFloat 0x1.4p-1%float]>
           (<["sentiment" := VStr "NEUTRAL"]>
              (fetched_record (VStr "РЖД объявила тендер")
                 (VStr "https://news.example/1") (VStr "2024-03-01T08:00:00Z")));
         <["subjectivity" := VFloat 0x1.cp-1%float]>
           (<["sentiment" := VStr "POSITIVE"]>
              (fetched_record (VStr "+ВСМ: скоростные магистрали")
                 (VStr "https://news.example/2") (VStr "2024-03-02T09:30:00Z")))]
        ["РЖД объявила тендер"; "+ВСМ: скоростные магистрали"].

Definition sample_raw (title url publishedAt : string) : dict :=
  <["description" := VStr "РЖД"]>
    (<["publishedAt" := VStr publishedAt]>
       (<["url" := VStr url]> (<["title" := VStr title]> ∅))).

Definition sample_get (query : string) : get_outcome :=
  if String.eqb query "ВСМ" then GetReturns (Response 429 Undecodable)
  else if String.eqb query "Высшая инженерная школа" then
    GetReturns (Response 200 (Body (Some [
      sample_raw "+ВИШ набирает студентов" "https://news.example/a"
        "2024-03-01T08:00:00Z";
      sample_raw "-Погода" "https://news.example/b" "2024-03-03T08:00:00Z"])))
  else
    GetReturns (Response 200 (Body (Some [
      sample_raw "РЖД объявила тендер" "https://news.example/c"
        "2024-03-02T08:00:00Z";
      sample_raw "Инженерная школа и ржд" "https://news.example/a"
        "2024-03-01T09:00:00Z";
      sample_raw "Курс валют" "https://news.example/d"
        "2024-03-02T08:00:00Z"]))).

(** A body whose second article has no [url]. *)
Definition sample_incomplete : list dict :=
  [sample_raw "РЖД объявила тендер" "https://news.example/c"
     "2024-03-02T08:00:00Z";
   <["publishedAt" := VStr "2024-03-02T08:00:00Z"]>
     (<["title" := VStr "Курс валют"]> ∅)].

(** A store with records that lack members or hold JSON null: record 1
    has a title only, record 2 is empty, record 3 has a null title and a
    null date. *)
Definition sample_bare : world :=
  World [fetched_record (VStr "РЖД объявила тендер")
           (VStr "https://news.example/1") (VStr "2024-03-01T08:00:00Z");
         <["title" := VStr "Курс валют"]> ∅;
         ∅;
         fetched_record VNone (VStr "https://news.example/3") VNone]
        [].

(** The two scored records followed by the three unscored ones. *)
Definition sample_mixed : world :=
  World (heap sample_scored ++ heap sample_world) [].

(** Records as the API describes them: the first two with a null
    [description], the third with a text one. *)
Definition sample_described : world :=
  World [<["description" := VNone]>
           (fetched_record (VStr "РЖД объявила тендер")
              (VStr "https://news.example/1") (VStr "2024-03-01T08:00:00Z"));
         <["description" := VNone]>
           (fetched_record (VStr "Курс валют")
              (VStr "https://news.example/2") (VStr "2024-03-02T08:00:00Z"));
         <["description" := VStr "Перевозки РЖД выросли"]>
           (fetched_record (VStr "Итоги недели")
              (VStr "https://news.example/3") (VStr "2024-03-03T08:00:00Z"))] [].

(** [str] and [format(_, '.2f')] on the floats of the sample data, and a
    short head and tail for the sample pages. *)
Definition sample_float_str (f : float) : string :=
  if PrimFloat.eqb f 0x1.cp-1 then "0.875"
  else if PrimFloat.eqb f 0x1.8p-1 then "0.75"
  else if PrimFloat.eqb f 0x1.4p-1 then "0.625"
  else "0.1".
Definition sample_float_2f (f : float) : string :=
  if PrimFloat.eqb f 0x1.cp-1 then "0.88"
  else if PrimFloat.eqb f 0x1.8p-1 then "0.75"
  else if PrimFloat.eqb f 0x1.4p-1 then "0.62"
  else "0.10".
Definition sample_head : string := "<ul id='news-list'>".
Definition sample_tail : string := "</ul>".

Section Pipeline.

(** [str.lower] *)
Variable lower : string → string.

(** The classifier: the label and the score of the first (and only)
    element of [self.sentiment_model(title)]. *)
Variable sentiment_model : string → string * float.

(** ** Sentiment scorer *)

(** A call of the classifier, recorded in [calls].  The classifier takes
    text only. *)
Definition classify (text : value) : M (string * float) :=
  match text with
  | VStr s => λ w, Return (sentiment_model s) (World (heap w) (calls w ++ [s]))
  | _ => raise ValueError
  end.

(** The body of the loop of [analyze_sentiment]. *)
Definition analyze_article (article : loc) : M unit :=
  title ← getitem article "title";
  result ← classify title;
  setitem article "sentiment" (VStr result.1);;
  setitem article "subjectivity" (VFloat result.2).

Definition analyze_sentiment (articles : list loc) : M (list loc) :=
  for_each analyze_article articles;; mret articles.

(** ** Keyword filter *)

(** [v.lower()]: only a string has the method. *)
Definition str_lower (v : value) : exn + string :=
  match v with
  | VStr s => inr (lower s)
  | _ => inl AttributeError
  end.

(** [any(keyword.lower() in title.lower() or keyword.lower() in
    summary.lower() for keyword in keywords)]: [any] stops at the first
    true element, [or] evaluates its right operand only when the left one
    is false. *)
Fixpoint any_keyword (title summary : value) (keywords : list string)
  : exn + bool :=
  match keywords with
  | [] => inr false
  | keyword :: rest =>
      match str_lower title with
      | inl e => inl e
      | inr t =>
          if contains (lower keyword) t then inr true
          else match str_lower summary with
               | inl e => inl e
               | inr s =>
                   if contains (lower keyword) s then inr true
                   else any_keyword title summary rest
               end
      end
  end.

(** The loop of [filter_articles_by_keywords], the list built so far in
    [filtered_articles]. *)
Fixpoint filter_loop (articles : list loc) (keywords : list string)
    (filtered_articles : list loc) : M (list loc) :=
  match articles with
  | [] => mret filtered_articles
  | article :: rest =>
      d ← deref article;
      let title := dict_get d "title" (VStr "") in
      let summary := dict_get d "description" (VStr "") in
      keep ← lift (any_keyword title summary keywords);
      filter_loop rest keywords
        (if keep : bool then filtered_articles ++ [article]
         else filtered_articles)
  end.

Definition filter_articles_by_keywords (articles : list loc)
    (keywords : list string) : M (list loc) :=
  filter_loop articles keywords [].

(** ** Result assembler *)

(** [main], up to the bundle it hands to [save_to_json]; its last
    component is what [create_dashboard] renders. *)
Definition main (session_get : string → get_outcome) : M bundle :=
  vish_news ← fetch_vish_news session_get;
  high_speed_news ← fetch_high_speed_railways session_get;
  russian_railways_news ← fetch_russian_railways session_get;
  let all_articles := (vish_news ++ high_speed_news) ++ russian_railways_news in
  unique ← unique_by_link all_articles;
  sorted_articles ← filter_and_sort_articles unique;
  analyzed ← analyze_sentiment sorted_articles;
  adjusted_articles ← adjust_subjectivity analyzed;
  vish ← filter_articles_by_keywords adjusted_articles keywords_vish;
  high_speed ← filter_articles_by_keywords adjusted_articles keywords_high_speed;
  rzd ← filter_articles_by_keywords adjusted_articles keywords_rzd;
  let final := (vish ++ high_speed) ++ rzd in
  mret (Bundle unique analyzed vish high_speed rzd final).

(** ** Vocabulary of the specification *)

(** The member [k] of the record behind [a]. *)
Definition field (w : world) (k : string) (a : loc) : option value :=
  heap w !! a ≫= (.!! k).

(** The same, when it is a string. *)
Definition str_field (w : world) (k : string) (a : loc) : option string :=
  match field w k a with
  | Some (VStr s) => Some s
  | _ => None
  end.

Definition link (w : world) (a : loc) : option string := str_field w "link" a.
Definition published (w : world) (a : loc) : option string :=
  str_field w "published" a.
Definition title (w : world) (a : loc) : option string := str_field w "title" a.

(** [a] is published no earlier than [b], as strings. *)
Definition published_ge (w : world) (a b : loc) : Prop :=
  ∃ p q, published w a = Some p ∧ published w b = Some q ∧
         String.leb q p = true.

(** Non-increasing order of [published]: every adjacent pair is ordered. *)
Definition non_increasing (w : world) (l : list loc) : Prop :=
  ∀ i a b, l !! i = Some a → l !! S i = Some b → published_ge w a b.

(** The store after the records behind [articles] went through [f]. *)
Definition update_at (f : dict → dict) (articles : list loc) (h : list dict)
  : list dict :=
  imap (λ i d, if bool_decide (i ∈ articles) then f d else d) h.

(** What the scorer does to one record. *)
Definition scored (d : dict) : dict :=
  match d !! "title" with
  | Some (VStr t) =>
      <["subjectivity" := VFloat (sentiment_model t).2]>
        (<["sentiment" := VStr (sentiment_model t).1]> d)
  | _ => d
  end.

(** What the adjuster does to one record. *)
Definition adjusted (d : dict) : dict :=
  match d !! "sentiment" with
  | Some s =>
      if py_eq s (VStr "NEUTRAL")
      then <["subjectivity" := VFloat neutral_subjectivity]> d
      else d
  | None => d
  end.

(** The classifier calls that scoring one record adds. *)
Definition title_call (d : dict) : list string :=
  match d !! "title" with
  | Some (VStr t) => [t]
  | _ => []
  end.

(** What a loop body logs for the record behind [a]. *)
Definition log_of (log : dict → list string) (w : world) (a : loc) : list string :=
  from_option log [] (heap w !! a).

(** [k] occurs in [t] as a substring. *)
Definition occurs_in (k t : string) : Prop :=
  ∃ pre post, t = pre +:+ k +:+ post.

(** The text of a member, an absent member read as the empty string. *)
Definition text_of (d : dict) (k : string) : option string :=
  match d !! k with
  | None => Some ""
  | Some (VStr s) => Some s
  | Some _ => None
  end.

(** At least one keyword occurs, all text lowered, in the title or in the
    description of the record. *)
Definition keyword_match (d : dict) (keywords : list string) : Prop :=
  ∃ k t s, k ∈ keywords ∧
    text_of d "title" = Some t ∧ text_of d "description" = Some s ∧
    (occurs_in (lower k) (lower t) ∨ occurs_in (lower k) (lower s)).

(** At least one keyword occurs, all text lowered, in the title. *)
Definition title_match (d : dict) (keywords : list string) : Prop :=
  ∃ k t, k ∈ keywords ∧ d !! "title" = Some (VStr t) ∧
         occurs_in (lower k) (lower t).

(** The members that [keyword_match] reads are text where present. *)
Definition text_members (d : dict) : Prop :=
  is_Some (text_of d "title") ∧ is_Some (text_of d "description").

(** A raw record of the API with the three members [fetch_news] reads,
    each a string. *)
Definition raw_article (d : dict) : Prop :=
  ∃ t u p, d !! "title" = Some (VStr t) ∧ d !! "url" = Some (VStr u) ∧
           d !! "publishedAt" = Some (VStr p).

(** A transport answer that [fetch_news] gets through: an error status,
    or a decodable body whose articles are raw records. *)
Definition answered (g : get_outcome) : Prop :=
  match g with
  | GetRaises _ => False
  | GetReturns r =>
      is_error_status r = true ∨
      match body r with
      | Undecodable => False
      | Body None => True
      | Body (Some l) => Forall raw_article l
      end
  end.

(** The records [fetch_news] creates, and those it creates from raw
    records. *)
Definition is_fetched (d : dict) : Prop :=
  ∃ t u p, d = fetched_record t u p.
Definition is_fetched_text (d : dict) : Prop :=
  ∃ t u p : string, d = fetched_record (VStr t) (VStr u) (VStr p).

(** [d.get(k)] on an insertion-ordered dictionary. *)
Fixpoint odict_get (k : value) (d : list (value * loc)) : option loc :=
  match d with
  | [] => None
  | (k', v) :: d' => if py_eq k' k then Some v else odict_get k d'
  end.

(** The string behind a value. *)
Definition key_str (v : value) : option string :=
  match v with
  | VStr s => Some s
  | _ => None
  end.

(** A dictionary whose keys are strings, each held once. *)
Definition str_keys (d : list (value * loc)) : Prop :=
  NoDup d.*1 ∧ Forall (λ k, is_Some (key_str k)) d.*1.

(** The last entry of [l] with link [s]. *)
Definition last_with_link (w : world) (s : string) (l : list loc) : option loc :=
  last (filter (λ b, link w b = Some s) l).

(** The sort key of an article, [None] standing for an absent member. *)
Definition published_key (w : world) (a : loc) : value :=
  default VNone (field w "published" a).

(** An article paired with its sort key. *)
Definition with_key (w : world) (a : loc) : value * loc := (published_key w a, a).

(** The key of [x] is a string no smaller than the key of [y]. *)
Definition key_ge (x y : value * loc) : Prop :=
  ∃ p q, key_str x.1 = Some p ∧ key_str y.1 = Some q ∧ String.leb q p = true.

(** The record behind [a] is there and meets [pre]. *)
Definition ready (pre : dict → Prop) (w : world) (a : loc) : Prop :=
  ∃ d, heap w !! a = Some d ∧ pre d.

(** The title of a record is text. *)
Definition text_title (d : dict) : Prop := ∃ t, d !! "title" = Some (VStr t).

(** The verdict of the keyword test on the record behind [a], when the
    test goes through. *)
Definition verdict (w : world) (keywords : list string) (a : loc) : option bool :=
  d ← heap w !! a;
  match any_keyword (dict_get d "title" (VStr ""))
                    (dict_get d "description" (VStr "")) keywords with
  | inr b => Some b
  | inl _ => None
  end.

(** The record behind [a] matches the keywords. *)
Definition matches (w : world) (keywords : list string) (a : loc) : Prop :=
  ∃ d, heap w !! a = Some d ∧ keyword_match d keywords.

(** The three topic queries of [main]. *)
Definition topic_queries : list string :=
  ["Высшая инженерная школа"; "ВСМ"; "РЖД Российские Железные дороги"].

(** The stages of one run of [main], in their order, with the lists and
    the worlds handed from each stage to the next. *)
Definition pipeline_run (session_get : string → get_outcome) (w : world)
    (b : bundle) (w' : world) : Prop :=
  ∃ vish_news high_speed_news russian_railways_news w1 w2 w3 w4,
    fetch_vish_news session_get w = Return vish_news w1 ∧
    fetch_high_speed_railways session_get w1 = Return high_speed_news w2 ∧
    fetch_russian_railways session_get w2 = Return russian_railways_news w3 ∧
    unique_by_link ((vish_news ++ high_speed_news) ++ russian_railways_news) w3
      = Return (unique_articles b) w3 ∧
    (∃ sorted_articles,
       filter_and_sort_articles (unique_articles b) w3
         = Return sorted_articles w3 ∧
       analyze_sentiment sorted_articles w3
         = Return (analyzed_articles b) w4) ∧
    adjust_subjectivity (analyzed_articles b) w4
      = Return (analyzed_articles b) w' ∧
    filter_articles_by_keywords (analyzed_articles b) keywords_vish w'
      = Return (filtered_vish b) w' ∧
    filter_articles_by_keywords (analyzed_articles b) keywords_high_speed w'
      = Return (filtered_high_speed b) w' ∧
    filter_articles_by_keywords (analyzed_articles b) keywords_rzd w'
      = Return (filtered_rzd b) w' ∧
    final_articles b =
      (filtered_vish b ++ filtered_high_speed b) ++ filtered_rzd b.

(** The record behind [a] matches the keywords by its title. *)
Definition title_matches (w : world) (keywords : list string) (a : loc) : Prop :=
  ∃ d, heap w !! a = Some d ∧ title_match d keywords.

(** A record as [main] has it when the filters run: created by
    [fetch_news] with a text title, then scored, then adjusted. *)
Definition enriched (d : dict) : Prop :=
  ∃ d0, is_fetched d0 ∧ text_title d0 ∧ d = adjusted (scored d0).

End Pipeline.

(** ** The dashboard *)

Section Dashboard.

(** [str(x)] and [format(x, '.2f')] of a float. *)
Variable float_str : float → string.
Variable float_2f : float → string.

(** The fixed HTML before and after the list of articles. *)
Variable dashboard_head : string.
Variable dashboard_tail : string.

(** [str(v)], as a replacement field without format specification
    renders its value. *)
Definition py_str (v : value) : string :=
  match v with
  | VNone => "None"
  | VStr s => s
  | VFloat f => float_str f
  end.

(** [format(v, '.2f')]: defined on numbers. *)
Definition format_2f (v : value) : exn + string :=
  match v with
  | VFloat f => inr (float_2f f)
  | VStr _ => inl ValueError
  | VNone => inl TypeError
  end.

(** [{'POSITIVE': ..., 'NEGATIVE': ..., 'NEUTRAL': ...}.get(sentiment,
    'sentiment-neutral')] *)
Definition sentiment_class (sentiment : value) : string :=
  if py_eq sentiment (VStr "POSITIVE") then "sentiment-positive"
  else if py_eq sentiment (VStr "NEGATIVE") then "sentiment-negative"
  else if py_eq sentiment (VStr "NEUTRAL") then "sentiment-neutral"
  else "sentiment-neutral".

(** The f-string of one list item, as a function of its replacement
    fields. *)
Definition li_template (class sentiment link title published subjectivity : string)
  : string :=
  "<li class='" +:+ class +:+ "' data-sentiment='" +:+ sentiment +:+
  "'><a href='" +:+ link +:+ "'>" +:+ title +:+
  "</a> - <span class='date'>" +:+ published +:+
  "</span> (Настроение: " +:+ sentiment +:+
  ", Субъективность: <span class='subjectivity'>" +:+ subjectivity +:+
  "</span>)</li>".

(** The body of the loop of [create_dashboard]: the item of one entry.
    The members are looked up in the order of the replacement fields;
    the format specification is applied last. *)
Definition dashboard_item (entry : loc) : M string :=
  sentiment ← getitem entry "sentiment";
  link ← getitem entry "link";
  title ← getitem entry "title";
  published ← getitem entry "published";
  subjectivity ← getitem entry "subjectivity";
  sub ← lift (format_2f subjectivity);
  mret (li_template (sentiment_class sentiment) (py_str sentiment)
          (py_str link) (py_str title) (py_str published) sub).

(** The loop of [create_dashboard], the text built so far in
    [dashboard]. *)
Fixpoint dashboard_items (data : list loc) (dashboard : string) : M string :=
  match data with
  | [] => mret dashboard
  | entry :: rest =>
      item ← dashboard_item entry;
      dashboard_items rest (dashboard +:+ item)
  end.

Definition create_dashboard (data : list loc) : M string :=
  dashboard ← dashboard_items data dashboard_head;
  mret (dashboard +:+ dashboard_tail).

End Dashboard.

(** ** Vocabulary of the further properties *)

(** A raw record with the three members [fetch_news] reads, whatever
    their values. *)
Definition complete (raw : dict) : Prop :=
  is_Some (raw !! "title") ∧ is_Some (raw !! "url") ∧
  is_Some (raw !! "publishedAt").

(** The record [fetch_news] makes of a raw record. *)
Definition record_of (raw : dict) : option dict :=
  t ← raw !! "title";
  u ← raw !! "url";
  p ← raw !! "publishedAt";
  Some (fetched_record t u p).

(** A transport answer on which [fetch_news] returns. *)
Definition gets_through (g : get_outcome) : Prop :=
  match g with
  | GetRaises _ => False
  | GetReturns r =>
      is_error_status r = true ∨
      match body r with
      | Undecodable => False
      | Body None => True
      | Body (Some l) => Forall complete l
      end
  end.

(** The elements of a list, each at its first occurrence only. *)
Fixpoint keep_first {A} `{EqDecision A} (l : list A) : list A :=
  match l with
  | [] => []
  | x :: l' => x :: filter (λ y, y ≠ x) (keep_first l')
  end.

(** An article paired with its link, [None] standing for an absent
    member. *)
Definition with_link (w : world) (a : loc) : value * loc :=
  (default VNone (field w "link" a), a).

(** The list item that the dashboard makes of a record, or the
    exception that the template raises on it. *)
Definition item_of (float_str float_2f : float → string) (d : dict)
  : exn + string :=
  match dict_getitem d "sentiment" with
  | inl e => inl e
  | inr sentiment =>
  match dict_getitem d "link" with
  | inl e => inl e
  | inr link =>
  match dict_getitem d "title" with
  | inl e => inl e
  | inr title =>
  match dict_getitem d "published" with
  | inl e => inl e
  | inr published =>
  match dict_getitem d "subjectivity" with
  | inl e => inl e
  | inr subjectivity =>
  match format_2f float_2f subjectivity with
  | inl e => inl e
  | inr sub =>
      inr (li_template (sentiment_class sentiment)
             (py_str float_str sentiment) (py_str float_str link)
             (py_str float_str title) (py_str float_str published) sub)
  end end end end end end.

(** The article behind [a] renders as the list item [s]. *)
Definition renders (float_str float_2f : float → string) (w : world)
    (a : loc) (s : string) : Prop :=
  ∃ d, heap w !! a = Some d ∧ item_of float_str float_2f d = inr s.

(** Strings put one after the other. *)
Definition join (l : list string) : string := foldr String.append "" l.

(** ** The monad *)

Lemma bind_unfold {A B} (m : M A) (k : A → M B) (w : world) :
  (m ≫= k) w =
  match m w with
  | Return a w' => k a w'
  | Raise e w' => Raise e w'
  end.
Proof. reflexivity. Qed.

Lemma bind_Return {A B} (m : M A) (k : A → M B) w a w1 :
  m w = Return a w1 → (m ≫= k) w = k a w1.
Proof. intros H. rewrite bind_unfold, H. reflexivity. Qed.

Lemma bind_Return_inv {A B} (m : M A) (k : A → M B) w b w' :
  (m ≫= k) w = Return b w' →
  ∃ a w1, m w = Return a w1 ∧ k a w1 = Return b w'.
Proof.
  rewrite bind_unfold. destruct (m w) as [a w1|e w1]; [eauto | discriminate].
Qed.

Lemma mret_unfold {A} (a : A) (w : world) : (mret a : M A) w = Return a w.
Proof. reflexivity. Qed.

Lemma getitem_Return a k w v w' :
  getitem a k w = Return v w' ↔ w' = w ∧ field w k a = Some v.
Proof.
  unfold getitem, field, deref, dict_getitem. rewrite bind_unfold.
  destruct (heap w !! a) as [d|]; simpl; [|naive_solver].
  destruct (d !! k) as [v'|]; simpl; unfold raise; rewrite ?mret_unfold;
    naive_solver.
Qed.

Lemma getitem_field a k w v :
  field w k a = Some v → getitem a k w = Return v w.
Proof. intros. by apply getitem_Return. Qed.

Lemma setitem_Return a k v w u w' :
  setitem a k v w = Return u w' ↔
  ∃ d, heap w !! a = Some d ∧
       w' = World (<[a := <[k := v]> d]> (heap w)) (calls w).
Proof.
  unfold setitem, deref, store. rewrite bind_unfold.
  destruct (heap w !! a) as [d|]; destruct u; naive_solver.
Qed.

Lemma lift_Return {A} (r : exn + A) w a w' :
  lift r w = Return a w' ↔ r = inr a ∧ w' = w.
Proof. destruct r; simpl; unfold raise; rewrite ?mret_unfold; naive_solver. Qed.

(** ** The fetcher *)

Lemma fetched_article_Return raw w a w' :
  fetched_article raw w = Return a w' ↔
  ∃ t u p, raw !! "title" = Some t ∧ raw !! "url" = Some u ∧
           raw !! "publishedAt" = Some p ∧ a = length (heap w) ∧
           w' = World (heap w ++ [fetched_record t u p]) (calls w).
Proof.
  unfold fetched_article, dict_getitem, alloc. rewrite !bind_unfold.
  destruct (raw !! "title") as [t|]; simpl; [|naive_solver].
  rewrite !bind_unfold.
  destruct (raw !! "url") as [u|]; simpl; [|naive_solver].
  rewrite !bind_unfold.
  destruct (raw !! "publishedAt") as [p|]; simpl; naive_solver.
Qed.

Lemma fetched_articles_Return raws w l w' :
  fetched_articles raws w = Return l w' →
  ∃ new, heap w' = heap w ++ new ∧ calls w' = calls w ∧
         l = seq (length (heap w)) (length new) ∧ Forall is_fetched new.
Proof.
  revert w l w'. induction raws as [|raw raws IH]; intros w l w' H; simpl in H.
  - inversion H; subst. exists []. by rewrite app_nil_r.
  - apply bind_Return_inv in H as (a & w1 & Ha & H).
    apply bind_Return_inv in H as (l1 & w2 & Hl & H).
    inversion H; subst; clear H.
    apply fetched_article_Return in Ha as (t & u & p & _ & _ & _ & -> & ->).
    apply IH in Hl as (new & Hh & Hc & -> & Hnew). simpl in *.
    exists (fetched_record t u p :: new). rewrite Hh, Hc, <- app_assoc.
    repeat split; [|constructor; [by exists t, u, p | done]].
    simpl. by rewrite length_app, Nat.add_1_r.
Qed.

Lemma fetched_articles_raw raws w :
  Forall raw_article raws →
  ∃ new, fetched_articles raws w =
           Return (seq (length (heap w)) (length new))
                  (World (heap w ++ new) (calls w)) ∧
         Forall is_fetched_text new.
Proof.
  intros Hraw. revert w. induction Hraw as [|raw raws (t & u & p & Ht & Hu & Hp) _ IH];
    intros w; simpl.
  - exists []. destruct w. by rewrite app_nil_r.
  - assert (Ha : fetched_article raw w =
      Return (length (heap w))
        (World (heap w ++ [fetched_record (VStr t) (VStr u) (VStr p)]) (calls w)))
      by (apply fetched_article_Return; naive_solver).
    rewrite (bind_Return _ _ _ _ _ Ha).
    destruct (IH (World (heap w ++ [fetched_record (VStr t) (VStr u) (VStr p)])
                        (calls w))) as (new & Hl & Hnew).
    rewrite (bind_Return _ _ _ _ _ Hl). simpl.
    exists (fetched_record (VStr t) (VStr u) (VStr p) :: new).
    unfold mret, M_ret. rewrite <- app_assoc, length_app, Nat.add_1_r. simpl.
    split; [done | constructor; [by exists t, u, p | done]].
Qed.

Lemma fetch_news_Return session_get query w l w' :
  fetch_news session_get query w = Return l w' →
  ∃ new, heap w' = heap w ++ new ∧ calls w' = calls w ∧
         l = seq (length (heap w)) (length new) ∧ Forall is_fetched new.
Proof.
  unfold fetch_news, fetch_try.
  destruct (session_get query) as [e|r]; simpl; [done|].
  destruct (is_error_status r); simpl.
  - intros H. inversion H; subst. exists []. by rewrite app_nil_r.
  - rewrite bind_unfold. simpl. intros H.
    apply bind_Return_inv in H as (raws & w1 & Hr & H).
    apply fetched_articles_Return in H as (new & ? & ? & ? & ?).
    assert (w1 = w) as ->; [|by exists new].
    unfold response_articles in Hr. destruct (body r) as [|[?|]]; by inversion Hr.
Qed.

Lemma fetch_news_answered session_get query w :
  answered (session_get query) →
  ∃ new, fetch_news session_get query w =
           Return (seq (length (heap w)) (length new))
                  (World (heap w ++ new) (calls w)) ∧
         Forall is_fetched_text new.
Proof.
  unfold fetch_news, fetch_try, answered.
  destruct (session_get query) as [e|r]; [done|].
  destruct (is_error_status r); simpl.
  - intros _. exists []. destruct w. unfold mret, M_ret. by rewrite app_nil_r.
  - intros [?|H]; [done|]. rewrite bind_unfold. simpl.
    unfold response_articles. rewrite bind_unfold.
    destruct (body r) as [|[raws|]]; [done| |].
    + unfold mret, M_ret. by apply fetched_articles_raw.
    + unfold mret, M_ret. simpl. exists []. destruct w. by rewrite app_nil_r.
Qed.

(** When the transport answers with an error status, the failure is
    absorbed: the empty list is returned. *)
Lemma fetch_news_error_status session_get query r w :
  session_get query = GetReturns r → is_error_status r = true →
  fetch_news session_get query w = Return [] w.
Proof. unfold fetch_news, fetch_try. by intros -> ->. Qed.

(** C1.  The claim is that every unrecoverable request failure, also one
    raised before a response exists, ends in the empty list and in no
    exception.  When [session.get] itself raises, the handler of
    [fetch_news] reads the local [response], which has never been bound:
    the call leaves with [UnboundLocalError], whatever the query and the
    request exception are. *)
Theorem fetch_news_get_raises_escapes (e : request_exception) (query : string)
    (w : world) :
  fetch_news (λ _, GetRaises e) query w = Raise (UnboundLocalError "response") w.
Proof. reflexivity. Qed.

(** ** The deduplicator *)

Lemma py_eq_str k s : py_eq k (VStr s) = true ↔ k = VStr s.
Proof.
  destruct k; simpl; try (split; [discriminate | congruence]).
  rewrite String.eqb_eq. naive_solver.
Qed.

Lemma py_eq_str_false k s : py_eq k (VStr s) = false ↔ k ≠ VStr s.
Proof. rewrite <- py_eq_str. by destruct (py_eq k (VStr s)). Qed.

Lemma key_str_Some k s : key_str k = Some s ↔ k = VStr s.
Proof. destruct k; naive_solver. Qed.

Lemma odict_get_set s s' a d :
  odict_get (VStr s) (odict_set (VStr s') a d) =
  if decide (s = s') then Some a else odict_get (VStr s) d.
Proof.
  induction d as [|[k v] d IH]; simpl.
  - rewrite String.eqb_sym.
    case_decide; subst; [by rewrite String.eqb_refl|].
    by apply String.eqb_neq in H as ->.
  - destruct (py_eq k (VStr s')) eqn:Hk; simpl.
    + apply py_eq_str in Hk as ->. simpl.
      case_decide; subst; [by rewrite String.eqb_refl|].
      rewrite String.eqb_sym. by apply String.eqb_neq in H as ->.
    + destruct (py_eq k (VStr s)) eqn:Hk'; [|done].
      apply py_eq_str in Hk' as ->. apply py_eq_str_false in Hk.
      case_decide; [congruence | done].
Qed.

Lemma odict_get_None s d : odict_get (VStr s) d = None ↔ VStr s ∉ d.*1.
Proof.
  induction d as [|[k v] d IH]; simpl.
  { split; [intros _; apply not_elem_of_nil | done]. }
  rewrite not_elem_of_cons, <- IH.
  destruct (py_eq k (VStr s)) eqn:Hk.
  - apply py_eq_str in Hk. naive_solver.
  - apply py_eq_str_false in Hk. naive_solver.
Qed.

Lemma odict_set_keys s a d :
  (odict_set (VStr s) a d).*1 =
  match odict_get (VStr s) d with
  | Some _ => d.*1
  | None => d.*1 ++ [VStr s]
  end.
Proof.
  induction d as [|[k v] d IH]; csimpl; [done|].
  destruct (py_eq k (VStr s)) eqn:Hk; csimpl; [done|].
  rewrite IH. by destruct (odict_get (VStr s) d).
Qed.

Lemma odict_set_str_keys s a d : str_keys d → str_keys (odict_set (VStr s) a d).
Proof.
  intros [Hnd Hstr]. unfold str_keys. rewrite odict_set_keys.
  destruct (odict_get (VStr s) d) eqn:Hget; [done|].
  apply odict_get_None in Hget. split.
  - apply NoDup_app. repeat split; [done| |apply NoDup_singleton].
    intros k Hk ->%list_elem_of_singleton. done.
  - apply Forall_app. split; [done|]. by repeat constructor.
Qed.

Lemma odict_get_elem_of k a d :
  str_keys d → (k, a) ∈ d →
  ∃ s, k = VStr s ∧ odict_get (VStr s) d = Some a.
Proof.
  intros [Hnd Hstr]. induction d as [|[k' v] d IH]; [by rewrite elem_of_nil|].
  csimpl in *. apply NoDup_cons in Hnd as [Hk' Hnd].
  apply Forall_cons in Hstr as [[s' Hs'%key_str_Some] Hstr]. subst k'.
  intros [[= -> ->]|Hin]%elem_of_cons.
  - exists s'. simpl. by rewrite String.eqb_refl.
  - destruct (IH Hnd Hstr Hin) as (s & -> & Hget). exists s. split; [done|].
    simpl. destruct (String.eqb s' s) eqn:Heq; [|done].
    apply String.eqb_eq in Heq as ->. destruct Hk'.
    by apply (list_elem_of_fmap_2 fst) in Hin.
Qed.

Lemma odict_get_value k a d : odict_get k d = Some a → a ∈ d.*2.
Proof.
  induction d as [|[k' v] d IH]; simpl; [done|].
  destruct (py_eq k' k); [intros [= ->]; left | right; auto].
Qed.

Lemma last_with_link_snoc w s l e :
  last_with_link w s (l ++ [e]) =
  if decide (link w e = Some s) then Some e else last_with_link w s l.
Proof.
  unfold last_with_link. rewrite filter_app, filter_cons, filter_nil.
  case_decide; [apply last_snoc | by rewrite app_nil_r].
Qed.

Lemma link_comprehension_spec w rest pre d :
  Forall (λ a, is_Some (link w a)) rest →
  str_keys d →
  (∀ s, odict_get (VStr s) d = last_with_link w s pre) →
  ∃ d', link_comprehension rest d w = Return d' w ∧ str_keys d' ∧
        ∀ s, odict_get (VStr s) d' = last_with_link w s (pre ++ rest).
Proof.
  intros Hrest. revert pre d.
  induction Hrest as [|e rest [se He] _ IH]; intros pre d Hkeys Hinv; simpl.
  - exists d. by rewrite app_nil_r.
  - assert (field w "link" e = Some (VStr se)) as Hf.
    { unfold link, str_field in He.
      destruct (field w "link" e) as [[]|]; naive_solver. }
    rewrite (bind_Return _ _ _ _ _ (getitem_field _ _ _ _ Hf)).
    destruct (IH (pre ++ [e]) (odict_set (VStr se) e d)) as (d' & ? & ? & Hd').
    + by apply odict_set_str_keys.
    + intros s. rewrite odict_get_set, last_with_link_snoc, He, Hinv.
      repeat case_decide; naive_solver.
    + exists d'. by rewrite <- app_assoc in Hd'.
Qed.

(** C2.  From any sequence of articles that carry a link, deduplication
    returns a collection in which no link occurs twice, made of entries of
    the input, holding for every link of the input an entry, and that
    entry is the last one of the input with that link; nothing in the
    store changes, and the empty input gives the empty output. *)
Theorem unique_by_link_last_wins (w : world) (all_articles : list loc) :
  Forall (λ a, is_Some (link w a)) all_articles →
  ∃ u, unique_by_link all_articles w = Return u w ∧
       NoDup (link w <$> u) ∧
       (∀ a, a ∈ u → a ∈ all_articles) ∧
       (∀ s a, a ∈ u ∧ link w a = Some s ↔
               last_with_link w s all_articles = Some a) ∧
       (all_articles = [] → u = []) ∧
       (∀ b, b ∈ all_articles → ∃ a, a ∈ u ∧ link w a = link w b).
Proof.
  intros Hall.
  destruct (link_comprehension_spec w all_articles [] [] Hall) as (d & Hd & Hkeys & Hinv).
  { split; constructor. }
  { done. }
  simpl in Hinv. exists (d.*2). unfold unique_by_link.
  rewrite (bind_Return _ _ _ _ _ Hd).
  assert (Hlast : ∀ s a, last_with_link w s all_articles = Some a →
                         a ∈ all_articles ∧ link w a = Some s).
  { intros s a Hl. apply last_Some_elem_of, list_elem_of_filter in Hl. tauto. }
  assert (Hentry : ∀ k a, (k, a) ∈ d → link w a = key_str k ∧ a ∈ all_articles).
  { intros k a Hin.
    destruct (odict_get_elem_of _ _ _ Hkeys Hin) as (s & -> & Hget).
    rewrite Hinv in Hget. apply Hlast in Hget. naive_solver. }
  split; [done|]. repeat split.
  - assert (link w <$> d.*2 = key_str <$> d.*1) as ->.
    { rewrite <- !list_fmap_compose. apply Forall_fmap_ext, Forall_forall.
      intros [k a] Hin. simpl. by apply Hentry. }
    destruct Hkeys as [Hnd Hstr]. apply NoDup_fmap_2_strong; [|done].
    intros k1 k2 Hk1 Hk2.
    rewrite Forall_forall in Hstr.
    destruct (Hstr _ Hk1) as [s1 ->%key_str_Some].
    destruct (Hstr _ Hk2) as [s2 ->%key_str_Some]. simpl. congruence.
  - intros a ([k a'] & -> & Hin)%list_elem_of_fmap. by eapply Hentry.
  - intros [([k a'] & -> & Hin)%list_elem_of_fmap Hs]. simpl in *.
    destruct (odict_get_elem_of _ _ _ Hkeys Hin) as (s' & -> & Hget).
    rewrite Hinv in Hget. destruct (Hlast _ _ Hget). congruence.
  - rewrite <- Hinv in H. by eapply odict_get_value.
  - by eapply Hlast.
  - intros ->. simpl in Hd. by inversion Hd.
  - intros b Hb. rewrite Forall_forall in Hall. destruct (Hall b Hb) as [s Hs].
    destruct (last_with_link w s all_articles) as [a|] eqn:Hl.
    + exists a. rewrite Hs. destruct (Hlast _ _ Hl). split; [|done].
      rewrite <- Hinv in Hl. by eapply odict_get_value.
    + apply last_None in Hl.
      by destruct (filter_nil_not_elem_of _ _ b Hl Hs).
Qed.

(** ** The sorter *)

Lemma string_compare_refl s : String.compare s s = Eq.
Proof.
  pose proof (String.compare_antisym s s) as H.
  by destruct (String.compare s s).
Qed.

Lemma string_ltb_leb p q : String.ltb p q = true → String.leb p q = true.
Proof. unfold String.ltb, String.leb. by destruct (String.compare p q). Qed.

Lemma string_ltb_false_leb p q : String.ltb p q = false → String.leb q p = true.
Proof.
  unfold String.ltb, String.leb. rewrite (String.compare_antisym p q).
  by destruct (String.compare q p).
Qed.

Lemma string_ltb_neq p q : String.ltb p q = true → p ≠ q.
Proof.
  unfold String.ltb. intros H ->. by rewrite string_compare_refl in H.
Qed.

Lemma string_leb_trans p q r :
  String.leb p q = true → String.leb q r = true → String.leb p r = true.
Proof.
  unfold String.leb. revert q r.
  induction p as [|a p IH]; intros [|b q] [|c r]; simpl; try done.
  unfold Ascii.compare.
  destruct (N.compare_spec (N_of_ascii a) (N_of_ascii b)) as [Hab|Hab|Hab];
    destruct (N.compare_spec (N_of_ascii b) (N_of_ascii c)) as [Hbc|Hbc|Hbc];
    destruct (N.compare_spec (N_of_ascii a) (N_of_ascii c)) as [Hac|Hac|Hac];
    try done; try lia.
  apply IH.
Qed.

Lemma filter_fmap {A B} (f : A → B) (P : B → Prop) `{!∀ y, Decision (P y)}
    (l : list A) :
  filter P (f <$> l) = f <$> filter (λ x, P (f x)) l.
Proof.
  induction l as [|x l IH]; csimpl; [done|].
  rewrite !filter_cons, IH. by case_decide.
Qed.

Lemma insert_desc_Permutation x l r : insert_desc x l = inr r → x :: l ≡ₚ r.
Proof.
  revert r. induction l as [|y l IH]; intros r; simpl.
  - by intros [= <-].
  - destruct (py_lt x.1 y.1) as [|[]]; [done| |by intros [= <-]].
    destruct (insert_desc x l) as [|r']; [done|]. intros [= <-].
    rewrite <- (IH r' eq_refl). apply perm_swap.
Qed.

Lemma sort_desc_Permutation l s : sort_desc l = inr s → l ≡ₚ s.
Proof.
  revert s. induction l as [|x l IH]; intros s; simpl.
  - by intros [= <-].
  - destruct (sort_desc l) as [|s']; [done|].
    intros H%insert_desc_Permutation. by rewrite (IH s' eq_refl).
Qed.

Lemma py_lt_str x y p q :
  key_str x = Some p → key_str y = Some q → py_lt x y = inr (String.ltb p q).
Proof. by intros ->%key_str_Some ->%key_str_Some. Qed.

Lemma insert_desc_str x l :
  is_Some (key_str x.1) → Forall (λ y, is_Some (key_str y.1)) l →
  ∃ r, insert_desc x l = inr r ∧
       (Sorted key_ge l → Sorted key_ge r) ∧
       (∀ y, HdRel key_ge y l → key_ge y x → HdRel key_ge y r) ∧
       ∀ k, filter (λ y, key_str y.1 = Some k) r =
            filter (λ y, key_str y.1 = Some k) (x :: l).
Proof.
  intros [p Hp] Hl. induction Hl as [|y l [q Hq] Hl IH]; simpl.
  - exists [x]. repeat split; auto.
  - rewrite (py_lt_str _ _ _ _ Hp Hq).
    destruct IH as (r & -> & Hsorted & Hhd & Hstable).
    destruct (String.ltb p q) eqn:Hlt.
    + exists (y :: r). repeat split.
      * intros [Hs Hh]%Sorted_inv. constructor; [auto|].
        apply Hhd; [done|]. exists q, p. eauto using string_ltb_leb.
      * intros z Hz%HdRel_inv _. by constructor.
      * intros k. rewrite !filter_cons, Hstable, filter_cons.
        apply string_ltb_neq in Hlt.
        repeat case_decide; naive_solver.
    + exists (x :: y :: l). repeat split; [|by constructor].
      intros Hs. constructor; [done|]. constructor.
      exists p, q. eauto using string_ltb_false_leb.
Qed.

Lemma sort_desc_str l :
  Forall (λ y, is_Some (key_str y.1)) l →
  ∃ s, sort_desc l = inr s ∧ Sorted key_ge s ∧
       ∀ k, filter (λ y, key_str y.1 = Some k) s =
            filter (λ y, key_str y.1 = Some k) l.
Proof.
  induction 1 as [|x l Hx Hl (s & Hs & Hsorted & Hstable)]; simpl.
  - exists []. by repeat split.
  - rewrite Hs.
    destruct (insert_desc_str x s Hx) as (r & Hr & Hsr & _ & Hst).
    { apply sort_desc_Permutation in Hs. by rewrite <- Hs. }
    exists r. repeat split; [done|auto|].
    intros k. by rewrite Hst, !filter_cons, Hstable.
Qed.

Lemma published_keys_Return articles w keyed w' :
  published_keys articles w = Return keyed w' →
  w' = w ∧ keyed = with_key w <$> articles.
Proof.
  revert keyed w'. induction articles as [|a l IH]; intros keyed w'; simpl.
  - by intros [= <- <-].
  - intros (k & w1 & [-> Hk]%getitem_Return & H)%bind_Return_inv.
    apply bind_Return_inv in H as (ks & w2 & [-> ->]%IH & [= <- <-]).
    split; [done|]. csimpl. unfold with_key at 2, published_key. by rewrite Hk.
Qed.

Lemma published_keys_total articles w :
  Forall (λ a, is_Some (field w "published" a)) articles →
  published_keys articles w = Return (with_key w <$> articles) w.
Proof.
  induction 1 as [|a l [k Hk] _ IH]; simpl; [done|].
  rewrite (bind_Return _ _ _ _ _ (getitem_field _ _ _ _ Hk)).
  rewrite (bind_Return _ _ _ _ _ IH). csimpl.
  unfold with_key at 2, published_key. by rewrite Hk.
Qed.

Lemma with_key_Permutation w articles s :
  with_key w <$> articles ≡ₚ s → s = with_key w <$> s.*2 ∧ articles ≡ₚ s.*2.
Proof.
  intros Hperm. split.
  - assert (Forall (λ x, x = with_key w x.2) s) as Hs.
    { rewrite <- Hperm. apply Forall_fmap, Forall_forall. done. }
    rewrite <- list_fmap_compose. clear Hperm.
    induction Hs as [|x s Hx _ IH]; csimpl; [done|]. by rewrite <- IH, <- Hx.
  - rewrite <- Hperm, <- list_fmap_compose.
    assert (snd ∘ with_key w = id) as -> by done. by rewrite list_fmap_id.
Qed.

(** Whenever the sorter returns, it returns a rearrangement of its input
    and leaves the store alone. *)
Lemma filter_and_sort_articles_Return articles w out w' :
  filter_and_sort_articles articles w = Return out w' →
  w' = w ∧ articles ≡ₚ out.
Proof.
  unfold filter_and_sort_articles.
  intros (keyed & w1 & [-> ->]%published_keys_Return & H)%bind_Return_inv.
  apply bind_Return_inv in H as (s & w2 & [Hs ->]%lift_Return & [= <- <-]).
  split; [done|]. apply sort_desc_Permutation, with_key_Permutation in Hs. tauto.
Qed.

Lemma key_str_published w a p :
  key_str (published_key w a) = Some p ↔ published w a = Some p.
Proof.
  unfold published_key, published, str_field.
  destruct (field w "published" a) as [[]|]; naive_solver.
Qed.

Lemma key_ge_with_key w a b :
  key_ge (with_key w a) (with_key w b) ↔ published_ge w a b.
Proof.
  unfold key_ge, published_ge. simpl. by setoid_rewrite key_str_published.
Qed.

Lemma Sorted_lookup {A} (R : relation A) l i a b :
  Sorted R l → l !! i = Some a → l !! S i = Some b → R a b.
Proof.
  intros Hs. revert i. induction Hs as [|x l Hs IH Hhd]; intros i; [done|].
  destruct i as [|i]; simpl.
  - intros [= ->] Hb. destruct Hhd; naive_solver.
  - apply IH.
Qed.

Lemma lookup_Sorted {A} (R : relation A) l :
  (∀ i a b, l !! i = Some a → l !! S i = Some b → R a b) → Sorted R l.
Proof.
  induction l as [|x l IH]; intros H; constructor.
  - apply IH. intros i. apply (H (S i)).
  - destruct l as [|y l]; constructor. by apply (H 0).
Qed.

Lemma non_increasing_Sorted w l :
  non_increasing w l ↔ Sorted (published_ge w) l.
Proof. split; [apply lookup_Sorted | intros H i a b; by apply Sorted_lookup]. Qed.

Lemma Sorted_with_key w l :
  Sorted key_ge (with_key w <$> l) → Sorted (published_ge w) l.
Proof.
  induction l as [|a l IH]; csimpl; [constructor|].
  intros [Hs Hhd]%Sorted_inv. constructor; [auto|].
  destruct l; csimpl in *; constructor.
  apply HdRel_inv in Hhd. by apply key_ge_with_key.
Qed.

(** C3.  On articles whose [published] is a string the sorter returns a
    rearrangement of its input in which every adjacent pair is in
    non-increasing order of [published]; articles with the same
    [published] keep the order they had in the input; the store it was
    given is the store it returns. *)
Theorem filter_and_sort_articles_sorted_stable (w : world) (articles : list loc) :
  Forall (λ a, is_Some (published w a)) articles →
  ∃ out, filter_and_sort_articles articles w = Return out w ∧
         articles ≡ₚ out ∧
         non_increasing w out ∧
         ∀ p, filter (λ a, published w a = Some p) out =
              filter (λ a, published w a = Some p) articles.
Proof.
  intros Hpub.
  assert (Forall (λ a, is_Some (field w "published" a)) articles) as Hfield.
  { eapply Forall_impl; [exact Hpub|]. intros a [p Hp].
    unfold published, str_field in Hp. by destruct (field w "published" a). }
  destruct (sort_desc_str (with_key w <$> articles)) as (s & Hs & Hsorted & Hstable).
  { apply Forall_fmap. eapply Forall_impl; [exact Hpub|].
    intros a [p Hp]. exists p. by apply key_str_published. }
  destruct (with_key_Permutation w articles s) as [Heq Hperm];
    [by apply sort_desc_Permutation|].
  unfold filter_and_sort_articles.
  rewrite (bind_Return _ _ _ _ _ (published_keys_total _ _ Hfield)), bind_unfold.
  rewrite Hs. simpl. exists (s.*2).
  revert Heq Hperm. generalize (s.*2). intros out -> Hperm.
  repeat split; [done| |].
  - by apply non_increasing_Sorted, Sorted_with_key.
  - intros p. specialize (Hstable p). rewrite !filter_fmap in Hstable.
    apply (f_equal (fmap snd)) in Hstable.
    rewrite <- !list_fmap_compose in Hstable.
    assert (snd ∘ with_key w = id) as Hid by done.
    rewrite Hid, !list_fmap_id in Hstable.
    rewrite (list_filter_iff _ (λ a, key_str (with_key w a).1 = Some p) out),
      (list_filter_iff _ (λ a, key_str (with_key w a).1 = Some p) articles);
      [done| |]; intros a; symmetry; apply key_str_published.
Qed.

(** ** Loops that rewrite records in place *)

Lemma update_at_lookup f articles h i :
  update_at f articles h !! i =
  (λ d, if bool_decide (i ∈ articles) then f d else d) <$> h !! i.
Proof. apply list_lookup_imap. Qed.

Lemma update_at_nil f h : update_at f [] h = h.
Proof.
  apply list_eq. intros i. rewrite update_at_lookup.
  by destruct (h !! i).
Qed.

Lemma update_at_cons f a articles h d :
  h !! a = Some d → f (f d) = f d →
  update_at f articles (<[a := f d]> h) = update_at f (a :: articles) h.
Proof.
  intros Ha Hf. apply list_eq. intros i. rewrite !update_at_lookup.
  destruct (decide (i = a)) as [->|Hne].
  - rewrite list_lookup_insert_eq by (by eapply lookup_lt_Some).
    rewrite Ha. simpl. rewrite (bool_decide_eq_true_2 (a ∈ a :: articles))
      by apply list_elem_of_here.
    case_bool_decide; congruence.
  - rewrite list_lookup_insert_ne by done.
    destruct (h !! i); simpl; [|done].
    assert (i ∈ a :: articles ↔ i ∈ articles) as Hiff
      by (rewrite elem_of_cons; naive_solver).
    by rewrite (bool_decide_ext _ _ Hiff).
Qed.

Section for_each.
Variable body : loc → M unit.
Variable f : dict → dict.
Variable pre : dict → Prop.
Variable log : dict → list string.

Hypothesis body_spec : ∀ a w u w',
  body a w = Return u w' ↔
  ∃ d, heap w !! a = Some d ∧ pre d ∧
       w' = World (<[a := f d]> (heap w)) (calls w ++ log d).
Hypothesis f_idemp : ∀ d, f (f d) = f d.
Hypothesis pre_f : ∀ d, pre (f d) ↔ pre d.
Hypothesis log_f : ∀ d, log (f d) = log d.

Lemma ready_step w a d c b :
  heap w !! a = Some d →
  ready pre (World (<[a := f d]> (heap w)) c) b ↔ ready pre w b.
Proof using pre_f.
  intros Ha. unfold ready. simpl. destruct (decide (b = a)) as [->|Hne].
  - rewrite list_lookup_insert_eq by (by eapply lookup_lt_Some).
    rewrite Ha. split; intros (d' & [= <-] & Hd'); eexists; split; eauto;
      by apply pre_f.
  - by rewrite list_lookup_insert_ne.
Qed.

Lemma log_of_step w a d c b :
  heap w !! a = Some d →
  log_of log (World (<[a := f d]> (heap w)) c) b = log_of log w b.
Proof using log_f.
  intros Ha. unfold log_of. simpl. destruct (decide (b = a)) as [->|Hne].
  - rewrite list_lookup_insert_eq by (by eapply lookup_lt_Some).
    rewrite Ha. simpl. apply log_f.
  - by rewrite list_lookup_insert_ne.
Qed.

Lemma for_each_Return l w u w' :
  for_each body l w = Return u w' ↔
  Forall (ready pre w) l ∧
  w' = World (update_at f l (heap w)) (calls w ++ l ≫= log_of log w).
Proof using body_spec f_idemp pre_f log_f.
  revert w w'. induction l as [|a l IH]; intros w w'; simpl.
  - rewrite update_at_nil, app_nil_r. destruct w, u. unfold mret, M_ret.
    simpl. naive_solver.
  - split.
    + intros (? & w1 & (d & Ha & Hd & ->)%body_spec & Hl)%bind_Return_inv.
      apply IH in Hl as [Hall ->]. simpl. split.
      * constructor; [by exists d|].
        eapply Forall_impl; [exact Hall|]. intros b. by apply ready_step.
      * rewrite update_at_cons, <- app_assoc by done. do 3 f_equal.
        { unfold log_of. by rewrite Ha. }
        apply list_bind_ext; [|done]. intros b. by apply log_of_step.
    + intros [[(d & Ha & Hd) Hall]%Forall_cons ->].
      assert (body a w = Return tt
                (World (<[a := f d]> (heap w)) (calls w ++ log d))) as Hb
        by (apply body_spec; eauto).
      rewrite (bind_Return _ _ _ _ _ Hb). apply IH. simpl. split.
      * eapply Forall_impl; [exact Hall|]. intros b. by apply ready_step.
      * rewrite update_at_cons, <- app_assoc by done. do 3 f_equal.
        { unfold log_of. by rewrite Ha. }
        apply list_bind_ext; [|done]. intros b. symmetry. by apply log_of_step.
Qed.
End for_each.

(** ** The scorer *)

Lemma title_ready w a t :
  title w a = Some t ↔ ∃ d, heap w !! a = Some d ∧ d !! "title" = Some (VStr t).
Proof.
  unfold title, str_field, field.
  destruct (heap w !! a) as [d|]; simpl.
  - split.
    + destruct (d !! "title") as [[]|] eqn:Ht; intros [= ->]; eauto.
    + by intros (? & [= <-] & ->).
  - split; [done | by intros (? & ? & ?)].
Qed.

Lemma title_calls w articles :
  Forall (λ a, is_Some (title w a)) articles →
  Forall2 (λ a t, title w a = Some t) articles
          (articles ≫= log_of title_call w).
Proof.
  induction 1 as [|a l [t Ht] _ IH]; csimpl; [constructor|].
  pose proof Ht as (d & Ha & Hd)%title_ready.
  unfold log_of at 1, title_call. rewrite Ha. simpl. rewrite Hd. simpl.
  by constructor.
Qed.

Section scorer.

Variable sentiment_model : string → string * float.

Lemma analyze_article_Return a w u w' :
  analyze_article sentiment_model a w = Return u w' ↔
  ∃ d, heap w !! a = Some d ∧ text_title d ∧
       w' = World (<[a := scored sentiment_model d]> (heap w))
                  (calls w ++ title_call d).
Proof.
  unfold analyze_article, getitem, deref, dict_getitem. rewrite !bind_unfold.
  destruct (heap w !! a) as [d|] eqn:Ha; simpl; [|naive_solver].
  unfold text_title, scored, title_call.
  destruct (d !! "title") as [v|] eqn:Ht; simpl; [|naive_solver].
  rewrite bind_unfold.
  destruct v as [|t|x]; simpl; [naive_solver| |naive_solver].
  rewrite bind_unfold. unfold setitem at 1, deref, store.
  rewrite bind_unfold. simpl. rewrite Ha. simpl.
  unfold setitem, deref, store. rewrite bind_unfold. simpl.
  rewrite list_lookup_insert_eq by (by eapply lookup_lt_Some).
  cbn [heap calls]. rewrite list_insert_insert_eq. destruct u.
  split.
  - intros [= <-]. exists d. rewrite Ht. eauto.
  - intros (d' & [= <-] & _ & ->). by rewrite Ht.
Qed.

Lemma scored_lookup_ne d k :
  k ≠ "sentiment" → k ≠ "subjectivity" →
  scored sentiment_model d !! k = d !! k.
Proof.
  intros. unfold scored. destruct (d !! "title") as [[]|]; try done.
  by rewrite !lookup_insert_ne.
Qed.

Lemma scored_idemp d :
  scored sentiment_model (scored sentiment_model d) = scored sentiment_model d.
Proof.
  unfold scored at 1. rewrite scored_lookup_ne by done.
  unfold scored. destruct (d !! "title") as [[|t|]|]; try done.
  apply map_eq. intros k. rewrite !lookup_insert. by repeat case_decide.
Qed.

Lemma text_title_scored d : text_title (scored sentiment_model d) ↔ text_title d.
Proof. unfold text_title. by rewrite scored_lookup_ne. Qed.

Lemma title_call_scored d : title_call (scored sentiment_model d) = title_call d.
Proof. unfold title_call. by rewrite scored_lookup_ne. Qed.

Lemma for_each_analyze_Return articles w u w' :
  for_each (analyze_article sentiment_model) articles w = Return u w' ↔
  Forall (ready text_title w) articles ∧
  w' = World (update_at (scored sentiment_model) articles (heap w))
             (calls w ++ articles ≫= log_of title_call w).
Proof.
  apply for_each_Return.
  - apply analyze_article_Return.
  - apply scored_idemp.
  - apply text_title_scored.
  - apply title_call_scored.
Qed.

Lemma analyze_sentiment_Return articles w r w' :
  analyze_sentiment sentiment_model articles w = Return r w' ↔
  r = articles ∧ Forall (ready text_title w) articles ∧
  w' = World (update_at (scored sentiment_model) articles (heap w))
             (calls w ++ articles ≫= log_of title_call w).
Proof.
  unfold analyze_sentiment. rewrite bind_unfold. split.
  - destruct (for_each (analyze_article sentiment_model) articles w)
      as [u w1|] eqn:H; [|done].
    intros [= <- <-]. apply for_each_analyze_Return in H. naive_solver.
  - intros (-> & Hall & ->).
    by rewrite (proj2 (for_each_analyze_Return articles w tt _) (conj Hall eq_refl)).
Qed.

(** C4.  On articles whose title is text the scorer returns the list it
    was given, has called the classifier once per article of the list, in
    order, on the title of that article, and has left every article of the
    list with [sentiment] the label and [subjectivity] the score the
    classifier gives for its title; no other member and no other record
    has changed. *)
Theorem analyze_sentiment_scores_titles (w : world) (articles : list loc) :
  Forall (λ a, is_Some (title w a)) articles →
  ∃ w' titles,
    analyze_sentiment sentiment_model articles w = Return articles w' ∧
    calls w' = calls w ++ titles ∧
    Forall2 (λ a t, title w a = Some t) articles titles ∧
    (∀ a, a ∈ articles → ∃ t,
       title w a = Some t ∧
       field w' "sentiment" a = Some (VStr (sentiment_model t).1) ∧
       field w' "subjectivity" a = Some (VFloat (sentiment_model t).2)) ∧
    (∀ a k, k ≠ "sentiment" → k ≠ "subjectivity" →
            field w' k a = field w k a) ∧
    (∀ a, a ∉ articles → heap w' !! a = heap w !! a).
Proof.
  intros Htitle.
  exists (World (update_at (scored sentiment_model) articles (heap w))
                (calls w ++ articles ≫= log_of title_call w)),
         (articles ≫= log_of title_call w).
  split; [|split; [done|split; [by apply title_calls|]]].
  { apply analyze_sentiment_Return. split; [done|]. split; [|done].
    eapply Forall_impl; [exact Htitle|].
    intros a [t (d & ? & ?)%title_ready]. exists d. split; [done|]. by exists t. }
  repeat split.
  - intros a Ha. rewrite Forall_forall in Htitle.
    destruct (Htitle a Ha) as [t Ht]. exists t. split; [done|].
    apply title_ready in Ht as (d & Hd & Ht).
    unfold field. simpl. rewrite !update_at_lookup, Hd. simpl.
    rewrite bool_decide_eq_true_2 by done. unfold scored. rewrite Ht.
    by rewrite lookup_insert_ne, !lookup_insert_eq.
  - intros a k Hk1 Hk2. unfold field. simpl. rewrite update_at_lookup.
    destruct (heap w !! a) as [d|]; simpl; [|done].
    case_bool_decide; [by apply scored_lookup_ne | done].
  - intros a Ha. simpl. rewrite update_at_lookup.
    destruct (heap w !! a) as [d|]; simpl; [|done].
    by rewrite bool_decide_eq_false_2.
Qed.

End scorer.

(** ** The adjuster *)

Lemma adjust_article_Return a w u w' :
  adjust_article a w = Return u w' ↔
  ∃ d, heap w !! a = Some d ∧ is_Some (d !! "sentiment") ∧
       w' = World (<[a := adjusted d]> (heap w)) (calls w ++ []).
Proof.
  unfold adjust_article, getitem, deref, dict_getitem. rewrite !bind_unfold.
  destruct (heap w !! a) as [d|] eqn:Ha; simpl; [|naive_solver].
  unfold adjusted.
  destruct (d !! "sentiment") as [v|] eqn:Hs; simpl;
    [|split; [done | intros (? & [= <-] & [? ?] & _); congruence]].
  rewrite app_nil_r. destruct u.
  destruct (py_eq v (VStr "NEUTRAL")) eqn:Hv.
  - unfold setitem, deref, store. rewrite bind_unfold, Ha. simpl.
    split; [intros [= <-]; exists d; rewrite Hs, Hv; eauto|].
    intros (d' & [= <-] & _ & ->). by rewrite Hs, Hv.
  - unfold mret, M_ret. split.
    + intros [= <-]. exists d. rewrite Hs, Hv, list_insert_id by done.
      destruct w; eauto.
    + intros (d' & [= <-] & _ & ->). rewrite Hs, Hv, list_insert_id by done.
      by destruct w.
Qed.

Lemma adjusted_sentiment d : adjusted d !! "sentiment" = d !! "sentiment".
Proof.
  unfold adjusted. destruct (d !! "sentiment") as [v|] eqn:Hs; [|done].
  destruct (py_eq v (VStr "NEUTRAL")); [|done]. by rewrite lookup_insert_ne.
Qed.

Lemma adjusted_idemp d : adjusted (adjusted d) = adjusted d.
Proof.
  unfold adjusted at 1. rewrite adjusted_sentiment. unfold adjusted.
  destruct (d !! "sentiment") as [v|]; [|done].
  destruct (py_eq v (VStr "NEUTRAL")); [|done]. apply insert_insert_eq.
Qed.

Lemma adjust_subjectivity_Return articles w r w' :
  adjust_subjectivity articles w = Return r w' ↔
  r = articles ∧
  Forall (ready (λ d, is_Some (d !! "sentiment")) w) articles ∧
  w' = World (update_at adjusted articles (heap w)) (calls w).
Proof.
  assert (articles ≫= log_of (λ _, []) w = []) as Hlog.
  { induction articles as [|a l IH]; csimpl; [done|]. rewrite IH.
    unfold log_of. by destruct (heap w !! a). }
  assert (∀ u w', for_each adjust_article articles w = Return u w' ↔
    Forall (ready (λ d, is_Some (d !! "sentiment")) w) articles ∧
    w' = World (update_at adjusted articles (heap w))
               (calls w ++ articles ≫= log_of (λ _, []) w)) as Hloop.
  { intros u w1. apply for_each_Return.
    - apply adjust_article_Return.
    - apply adjusted_idemp.
    - intros d. by rewrite adjusted_sentiment.
    - done. }
  rewrite Hlog, app_nil_r in Hloop.
  unfold adjust_subjectivity. split.
  - intros (u & w1 & H & [= <- <-])%bind_Return_inv.
    apply Hloop in H. naive_solver.
  - intros (-> & Hall & ->).
    by rewrite (bind_Return _ _ _ _ _ (proj2 (Hloop tt _) (conj Hall eq_refl))).
Qed.

Lemma sentiment_ready w a :
  is_Some (field w "sentiment" a) ↔ ready (λ d, is_Some (d !! "sentiment")) w a.
Proof.
  unfold field, ready. destruct (heap w !! a) as [d|]; simpl; [naive_solver|].
  split; [by intros [] | by intros (? & ? & ?)].
Qed.

(** C5.  On scored articles the adjuster returns the list it was given;
    a record of the list whose [sentiment] is ["NEUTRAL"] is afterwards the
    record it was with [subjectivity] set to the float [0.1], any other
    record of the list is the record it was; records outside the list and
    the classifier log are as before. *)
Theorem adjust_subjectivity_neutral_only (w : world) (articles : list loc) :
  Forall (λ a, is_Some (field w "sentiment" a)) articles →
  ∃ w', adjust_subjectivity articles w = Return articles w' ∧
        calls w' = calls w ∧
        (∀ a d, a ∈ articles → heap w !! a = Some d →
           (d !! "sentiment" = Some (VStr "NEUTRAL") →
            heap w' !! a =
              Some (<["subjectivity" := VFloat neutral_subjectivity]> d)) ∧
           (d !! "sentiment" ≠ Some (VStr "NEUTRAL") →
            heap w' !! a = Some d)) ∧
        (∀ a, a ∉ articles → heap w' !! a = heap w !! a).
Proof.
  intros Hs. exists (World (update_at adjusted articles (heap w)) (calls w)).
  split.
  { apply adjust_subjectivity_Return. split; [done|]. split; [|done].
    eapply Forall_impl; [exact Hs|]. intros a. by apply sentiment_ready. }
  split; [done|]. simpl. split.
  - intros a d Ha Hd. rewrite update_at_lookup, Hd. simpl.
    rewrite bool_decide_eq_true_2 by done. unfold adjusted.
    rewrite Forall_forall in Hs. specialize (Hs a Ha).
    unfold field in Hs. rewrite Hd in Hs. simpl in Hs. destruct Hs as [v Hv].
    rewrite Hv. destruct (py_eq v (VStr "NEUTRAL")) eqn:Heq.
    + apply py_eq_str in Heq as ->. split; [done | congruence].
    + apply py_eq_str_false in Heq. split; [congruence | done].
  - intros a Ha. rewrite update_at_lookup.
    destruct (heap w !! a) as [d|]; simpl; [|done].
    by rewrite bool_decide_eq_false_2.
Qed.

Lemma update_at_idemp f articles h :
  (∀ d, f (f d) = f d) →
  update_at f articles (update_at f articles h) = update_at f articles h.
Proof.
  intros Hf. apply list_eq. intros i. rewrite !update_at_lookup.
  destruct (h !! i) as [d|]; simpl; [|done].
  case_bool_decide; by rewrite ?Hf.
Qed.

(** C9.  On scored articles, running the adjuster on its own result
    returns the same list and leaves the world of the first run. *)
Theorem adjust_subjectivity_idempotent (w : world) (articles : list loc) :
  Forall (λ a, is_Some (field w "sentiment" a)) articles →
  ∃ w', adjust_subjectivity articles w = Return articles w' ∧
        adjust_subjectivity articles w' = Return articles w'.
Proof.
  intros Hs. exists (World (update_at adjusted articles (heap w)) (calls w)).
  split.
  - apply adjust_subjectivity_Return. split; [done|]. split; [|done].
    eapply Forall_impl; [exact Hs|]. intros a. by apply sentiment_ready.
  - apply adjust_subjectivity_Return. split; [done|]. simpl. split.
    + eapply Forall_impl; [exact Hs|]. intros a (d & Ha & Hd)%sentiment_ready.
      exists (if bool_decide (a ∈ articles) then adjusted d else d). simpl.
      rewrite update_at_lookup, Ha. split; [done|].
      case_bool_decide; by rewrite ?adjusted_sentiment.
    + by rewrite update_at_idemp by apply adjusted_idemp.
Qed.

(** ** The keyword filter *)

Lemma append_String c k post : String c k +:+ post = String c (k +:+ post).
Proof. reflexivity. Qed.

Lemma append_empty post : "" +:+ post = post.
Proof. reflexivity. Qed.

Lemma prefix_occurs k t : String.prefix k t = true ↔ ∃ post, t = k +:+ post.
Proof.
  revert t. induction k as [|c k IH]; intros t.
  - destruct t; simpl; split; eauto.
  - destruct t as [|c' t]; simpl;
      [split; [done | intros [? H]; by rewrite append_String in H]|].
    destruct (ascii_dec c c') as [->|Hne].
    + rewrite IH. split; intros [post Hpost]; exists post;
        rewrite append_String in *; congruence.
    + split; [done | intros [post Hpost]; rewrite append_String in Hpost;
                     congruence].
Qed.

Lemma contains_occurs k t : contains k t = true ↔ occurs_in k t.
Proof.
  unfold occurs_in. induction t as [|c t IH]; cbn [contains].
  - rewrite orb_false_r, prefix_occurs. split.
    + intros [post ->]. by exists "", post.
    + intros ([|c pre] & post & H); [by exists post|].
      by rewrite append_String in H.
  - rewrite orb_true_iff, IH, prefix_occurs. split.
    + intros [[post ->]|(pre & post & ->)];
        [by exists "", post | by exists (String c pre), post].
    + intros ([|c' pre] & post & H); [left; by exists post|].
      right. rewrite append_String in H. injection H as -> ->.
      by exists pre, post.
Qed.

Section keyword_filter.

Variable lower : string → string.

Lemma any_keyword_text t s keywords :
  ∃ b, any_keyword lower (VStr t) (VStr s) keywords = inr b ∧
       (b = true ↔ ∃ k, k ∈ keywords ∧
          (occurs_in (lower k) (lower t) ∨ occurs_in (lower k) (lower s))).
Proof.
  induction keywords as [|k l (b & IH & Hb)]; simpl.
  - exists false. split; [done|]. split; [done|]. by intros (k & ?%elem_of_nil & _).
  - destruct (contains (lower k) (lower t)) eqn:Ht.
    { exists true. split; [done|]. split; [|done]. intros _. exists k.
      split; [left|]. left. by apply contains_occurs. }
    destruct (contains (lower k) (lower s)) eqn:Hs.
    { exists true. split; [done|]. split; [|done]. intros _. exists k.
      split; [left|]. right. by apply contains_occurs. }
    exists b. split; [done|]. rewrite Hb. split.
    + intros (k' & ? & ?). exists k'. split; [by right | done].
    + intros (k' & [->|?]%elem_of_cons & Hk'); [|by exists k'].
      rewrite <- !contains_occurs, Ht, Hs in Hk'. by destruct Hk'.
Qed.

Lemma filter_loop_Return articles keywords acc w out w' :
  filter_loop lower articles keywords acc w = Return out w' ↔
  w' = w ∧ Forall (λ a, is_Some (verdict lower w keywords a)) articles ∧
  out = acc ++ filter (λ a, verdict lower w keywords a = Some true) articles.
Proof.
  revert acc. induction articles as [|a l IH]; intros acc; simpl.
  - rewrite app_nil_r. unfold mret, M_ret. naive_solver.
  - rewrite bind_unfold. unfold deref. rewrite Forall_cons, filter_cons.
    destruct (verdict lower w keywords a) as [b|] eqn:Hadm; unfold verdict in Hadm;
      destruct (heap w !! a) as [d|]; simpl in *; try done.
    + rewrite bind_unfold.
      destruct (any_keyword lower _ _ keywords) as [e|b']; simpl; [done|].
      injection Hadm as ->. rewrite IH. destruct b; simpl.
      * rewrite <- app_assoc. naive_solver.
      * naive_solver.
    + rewrite bind_unfold.
      destruct (any_keyword lower _ _ keywords) as [e|b']; simpl; [|done].
      split; [done | by intros (_ & [[] _] & _)].
    + split; [done | by intros (_ & [[] _] & _)].
Qed.

Lemma filter_articles_by_keywords_Return articles keywords w out w' :
  filter_articles_by_keywords lower articles keywords w = Return out w' ↔
  w' = w ∧ Forall (λ a, is_Some (verdict lower w keywords a)) articles ∧
  out = filter (λ a, verdict lower w keywords a = Some true) articles.
Proof. apply filter_loop_Return. Qed.

Lemma verdict_text w keywords a :
  ready text_members w a →
  ∃ b, verdict lower w keywords a = Some b ∧
       (b = true ↔ matches lower w keywords a).
Proof.
  intros (d & Ha & [t Ht] & [s Hs]). unfold verdict, matches. rewrite Ha. simpl.
  assert (dict_get d "title" (VStr "") = VStr t) as ->.
  { unfold text_of in Ht. unfold dict_get.
    destruct (d !! "title") as [[]|]; naive_solver. }
  assert (dict_get d "description" (VStr "") = VStr s) as ->.
  { unfold text_of in Hs. unfold dict_get.
    destruct (d !! "description") as [[]|]; naive_solver. }
  destruct (any_keyword_text t s keywords) as (b & -> & Hb).
  exists b. split; [done|]. rewrite Hb. unfold keyword_match. split.
  - intros (k & ? & ?). exists d. split; [done|]. by exists k, t, s.
  - intros (d' & [= <-] & k & t' & s' & ? & Ht' & Hs' & ?).
    exists k. naive_solver.
Qed.

Lemma filter_articles_by_keywords_text articles keywords w :
  Forall (ready text_members w) articles →
  filter_articles_by_keywords lower articles keywords w =
    Return (filter (λ a, verdict lower w keywords a = Some true) articles) w.
Proof.
  intros Hall. apply filter_articles_by_keywords_Return.
  split; [done|]. split; [|done].
  eapply Forall_impl; [exact Hall|]. intros a Ha.
  destruct (verdict_text w keywords a Ha) as (b & -> & _). eauto.
Qed.

(** C6.  On articles whose title and description are text where present,
    the filter returns, without touching the store and without an error,
    exactly the articles of its input, in the order of the input, for
    which some keyword occurs, all text lowered, as a substring of the
    title or of the description, an absent member counting as the empty
    string. *)
Theorem filter_articles_by_keywords_subsequence (w : world)
    (articles : list loc) (keywords : list string) :
  Forall (ready text_members w) articles →
  ∃ keep : loc → bool,
    filter_articles_by_keywords lower articles keywords w =
      Return (filter (λ a, keep a = true) articles) w ∧
    ∀ a, a ∈ articles → keep a = true ↔ matches lower w keywords a.
Proof.
  intros Hall.
  exists (λ a, bool_decide (verdict lower w keywords a = Some true)). split.
  - rewrite (filter_articles_by_keywords_text _ _ _ Hall). f_equal.
    apply list_filter_iff. intros a. by rewrite bool_decide_eq_true.
  - intros a Ha. rewrite Forall_forall in Hall.
    destruct (verdict_text w keywords a (Hall a Ha)) as (b & Hb & Hm).
    rewrite bool_decide_eq_true, Hb, <- Hm. naive_solver.
Qed.

End keyword_filter.

(** ** Order through the later stages *)

Lemma published_ge_trans w a b c :
  published_ge w a b → published_ge w b c → published_ge w a c.
Proof.
  intros (p & q & Hp & Hq & Hqp) (q' & r & Hq' & Hr & Hrq).
  exists p, r. repeat split; [done..|].
  assert (q' = q) as -> by congruence. by eapply string_leb_trans.
Qed.

Lemma Sorted_filter {A} (R : relation A) (P : A → Prop)
    `{!∀ x, Decision (P x)} `{!Transitive R} l :
  Sorted R l → Sorted R (filter P l).
Proof.
  intros Hs%Sorted_StronglySorted; [|done].
  apply StronglySorted_Sorted.
  induction Hs as [|x l Hs IH Hx]; [constructor|].
  rewrite filter_cons. case_decide; [|done].
  constructor; [done|]. rewrite Forall_forall in Hx |- *.
  intros y [_ ?]%list_elem_of_filter. auto.
Qed.

Lemma field_update_at f l w w' k :
  heap w' = update_at f l (heap w) → (∀ d, f d !! k = d !! k) →
  ∀ a, field w' k a = field w k a.
Proof.
  intros Hw Hf a. unfold field. rewrite Hw, update_at_lookup.
  destruct (heap w !! a) as [d|]; simpl; [|done]. by case_bool_decide.
Qed.

Lemma non_increasing_ext w w' l :
  (∀ a, field w' "published" a = field w "published" a) →
  non_increasing w l → non_increasing w' l.
Proof.
  intros Hf Hl i a b Ha Hb. destruct (Hl i a b Ha Hb) as (p & q & Hp & Hq & ?).
  exists p, q. unfold published, str_field in *. by rewrite !Hf.
Qed.

Lemma adjusted_lookup_ne d k : k ≠ "subjectivity" → adjusted d !! k = d !! k.
Proof.
  intros. unfold adjusted. destruct (d !! "sentiment") as [v|]; [|done].
  destruct (py_eq v (VStr "NEUTRAL")); [|done]. by rewrite lookup_insert_ne.
Qed.

Lemma non_increasing_filter w (P : loc → Prop) `{!∀ a, Decision (P a)} l :
  non_increasing w l → non_increasing w (filter P l).
Proof.
  rewrite !non_increasing_Sorted. apply Sorted_filter.
  intros a b c. apply published_ge_trans.
Qed.

(** C8.  Let the articles be in non-increasing order of [published].
    Then, each stage on the input it is meant for, the scorer and the
    adjuster return the same list, still in non-increasing order in the
    store they leave, and the filter, for any keywords, returns a list in
    non-increasing order. *)
Theorem later_stages_preserve_order (lower : string → string)
    (sentiment_model : string → string * float) (w : world) (articles : list loc)
    (keywords : list string) :
  non_increasing w articles →
  (Forall (λ a, is_Some (title w a)) articles →
   ∃ w', analyze_sentiment sentiment_model articles w = Return articles w' ∧
         non_increasing w' articles) ∧
  (Forall (λ a, is_Some (field w "sentiment" a)) articles →
   ∃ w', adjust_subjectivity articles w = Return articles w' ∧
         non_increasing w' articles) ∧
  (Forall (ready text_members w) articles →
   ∃ out, filter_articles_by_keywords lower articles keywords w = Return out w ∧
          non_increasing w out).
Proof.
  intros Hord. repeat split.
  - intros Ht.
    exists (World (update_at (scored sentiment_model) articles (heap w))
                  (calls w ++ articles ≫= log_of title_call w)).
    split.
    + apply analyze_sentiment_Return. split; [done|]. split; [|done].
      eapply Forall_impl; [exact Ht|].
      intros a [t (d & ? & ?)%title_ready]. exists d. split; [done|]. by exists t.
    + eapply non_increasing_ext; [|exact Hord].
      apply (field_update_at (scored sentiment_model) articles); [done|].
      intros d. by apply scored_lookup_ne.
  - intros Hs. exists (World (update_at adjusted articles (heap w)) (calls w)).
    split.
    + apply adjust_subjectivity_Return. split; [done|]. split; [|done].
      eapply Forall_impl; [exact Hs|]. intros a. by apply sentiment_ready.
    + eapply non_increasing_ext; [|exact Hord].
      apply (field_update_at adjusted articles); [done|].
      intros d. by apply adjusted_lookup_ne.
  - intros Htext.
    eexists. split; [by apply filter_articles_by_keywords_text|].
    by apply non_increasing_filter.
Qed.

(** ** The assembler *)

Lemma odict_set_values k e d :
  (odict_set k e d).*2 ⊆ e :: d.*2 ∧
  (NoDup (e :: d.*2) → NoDup (odict_set k e d).*2).
Proof.
  induction d as [|[k' v'] d [IHsub IHnd]]; csimpl.
  - split; [done | by intros _; apply NoDup_singleton].
  - destruct (py_eq k' k); csimpl.
    + split; [set_solver|]. rewrite !NoDup_cons. set_solver.
    + split; [set_solver|]. rewrite !NoDup_cons. intros (He & Hv & Hnd).
      split; [|apply IHnd, NoDup_cons; set_solver].
      intros Hin%IHsub. set_solver.
Qed.

Lemma link_comprehension_Return rest d w d' w' :
  link_comprehension rest d w = Return d' w' →
  w' = w ∧ d'.*2 ⊆ d.*2 ++ rest ∧ (NoDup (d.*2 ++ rest) → NoDup d'.*2).
Proof.
  revert d. induction rest as [|e rest IH]; intros d; simpl.
  - intros [= <- <-]. by rewrite app_nil_r.
  - intros (k & w1 & [-> _]%getitem_Return & H)%bind_Return_inv.
    apply IH in H as (-> & Hsub & Hnd).
    destruct (odict_set_values k e d) as [Hsub' Hnd'].
    split; [done|]. split; [set_solver|]. intros Hd. apply Hnd.
    apply NoDup_app in Hd as (Hd1 & Hd2 & [He Hrest]%NoDup_cons).
    apply NoDup_app. split; [apply Hnd', NoDup_cons; set_solver|].
    split; [|done]. intros x Hx%Hsub'. set_solver.
Qed.

Lemma unique_by_link_Return all_articles w u w' :
  unique_by_link all_articles w = Return u w' →
  w' = w ∧ u ⊆ all_articles ∧ (NoDup all_articles → NoDup u).
Proof.
  unfold unique_by_link.
  intros (d & w1 & H & [= <- <-])%bind_Return_inv.
  by apply link_comprehension_Return in H.
Qed.

Lemma filter_and_sort_articles_total articles w :
  Forall (λ a, is_Some (published w a)) articles →
  ∃ out, filter_and_sort_articles articles w = Return out w.
Proof.
  intros Hpub.
  assert (Forall (λ a, is_Some (field w "published" a)) articles) as Hfield.
  { eapply Forall_impl; [exact Hpub|]. intros a [p Hp].
    unfold published, str_field in Hp. by destruct (field w "published" a). }
  destruct (sort_desc_str (with_key w <$> articles)) as (s & Hs & _).
  { apply Forall_fmap. eapply Forall_impl; [exact Hpub|].
    intros a [p Hp]. exists p. by apply key_str_published. }
  exists (s.*2). unfold filter_and_sort_articles.
  rewrite (bind_Return _ _ _ _ _ (published_keys_total _ _ Hfield)), bind_unfold.
  by rewrite Hs.
Qed.

Lemma three_batches (h n1 n2 n3 : list dict) :
  (seq (length h) (length n1) ++ seq (length (h ++ n1)) (length n2)) ++
    seq (length ((h ++ n1) ++ n2)) (length n3)
  = seq (length h) (length (n1 ++ n2 ++ n3)).
Proof. rewrite !length_app, !seq_app. by rewrite <- !app_assoc. Qed.

Lemma fetches_Return session_get w v w1 h w2 r w3 :
  fetch_vish_news session_get w = Return v w1 →
  fetch_high_speed_railways session_get w1 = Return h w2 →
  fetch_russian_railways session_get w2 = Return r w3 →
  ∃ new, heap w3 = heap w ++ new ∧
         (v ++ h) ++ r = seq (length (heap w)) (length new) ∧
         Forall is_fetched new.
Proof.
  intros Hv Hh Hr.
  destruct (fetch_news_Return _ _ _ _ _ Hv) as (n1 & H1 & _ & Ev & F1).
  destruct (fetch_news_Return _ _ _ _ _ Hh) as (n2 & H2 & _ & Eh & F2).
  destruct (fetch_news_Return _ _ _ _ _ Hr) as (n3 & H3 & _ & Er & F3).
  subst v h r. exists (n1 ++ n2 ++ n3). rewrite H3, H2, H1.
  split; [by rewrite <- !app_assoc|]. split; [|by rewrite !Forall_app].
  apply three_batches.
Qed.

Lemma fetches_answered session_get w :
  Forall (λ q, answered (session_get q)) topic_queries →
  ∃ v w1 h w2 r w3 new,
    fetch_vish_news session_get w = Return v w1 ∧
    fetch_high_speed_railways session_get w1 = Return h w2 ∧
    fetch_russian_railways session_get w2 = Return r w3 ∧
    heap w3 = heap w ++ new ∧ Forall is_fetched_text new.
Proof.
  unfold topic_queries. rewrite !Forall_cons. intros (A1 & A2 & A3 & _).
  destruct (fetch_news_answered _ _ w A1) as (n1 & H1 & F1).
  destruct (fetch_news_answered _ _ (World (heap w ++ n1) (calls w)) A2)
    as (n2 & H2 & F2).
  destruct (fetch_news_answered _ _
              (World ((heap w ++ n1) ++ n2) (calls w)) A3) as (n3 & H3 & F3).
  do 6 eexists. exists (n1 ++ n2 ++ n3).
  split; [exact H1|]. split; [exact H2|]. split; [exact H3|]. simpl.
  rewrite <- !app_assoc. by rewrite !Forall_app.
Qed.

Lemma fresh_lookup (h new : list dict) a :
  a ∈ seq (length h) (length new) → ∃ d, (h ++ new) !! a = Some d ∧ d ∈ new.
Proof.
  intros [Hge Hlt]%elem_of_seq.
  destruct (lookup_lt_is_Some_2 new (a - length h)) as [d Hd]; [lia|].
  exists d. split; [|by eapply list_elem_of_lookup_2].
  by rewrite lookup_app_r, Hd.
Qed.

Lemma occurs_in_empty k : occurs_in k "" → k = "".
Proof.
  intros ([|c pre] & post & H); [|by rewrite append_String in H].
  rewrite append_empty in H. destruct k; [done | by rewrite append_String in H].
Qed.

Lemma occurs_in_empty_l t : occurs_in "" t.
Proof. by exists "", t. Qed.

Lemma occurrences_NoDup (a : loc) (l : list loc) :
  NoDup l → length (filter (a =.) l) = if decide (a ∈ l) then 1 else 0.
Proof.
  induction 1 as [|x l Hx _ IH]; [done|].
  rewrite filter_cons. destruct (decide (a = x)) as [->|Hne].
  - rewrite decide_True by left. simpl. rewrite IH. by rewrite decide_False.
  - rewrite IH. by rewrite (decide_ext (a ∈ x :: l) (a ∈ l)) by set_solver.
Qed.

Lemma occurrences_buckets (a : loc) (l1 l2 l3 : list loc) :
  NoDup l1 → NoDup l2 → NoDup l3 →
  length (filter (a =.) ((l1 ++ l2) ++ l3)) =
  length (filter (λ l, a ∈ l) [l1; l2; l3]).
Proof.
  intros H1 H2 H3. rewrite !filter_app, !length_app, !occurrences_NoDup by done.
  rewrite !filter_cons, filter_nil.
  repeat case_decide; reflexivity.
Qed.

Lemma fetched_text_fields d :
  is_fetched_text d →
  ∃ t u p, d !! "title" = Some (VStr t) ∧ d !! "link" = Some (VStr u) ∧
           d !! "published" = Some (VStr p).
Proof. intros (t & u & p & ->). by exists t, u, p. Qed.

Lemma str_field_lookup w k a d s :
  heap w !! a = Some d → d !! k = Some (VStr s) → str_field w k a = Some s.
Proof. intros Ha Hk. unfold str_field, field. by rewrite Ha; simpl; rewrite Hk. Qed.

Lemma is_fetched_dom d :
  is_fetched d → dom d = ({["title"; "link"; "published"]} : gset string).
Proof.
  intros (t & u & p & ->). unfold fetched_record.
  rewrite !dom_insert_L, dom_empty_L. set_solver.
Qed.

Section enrichment.

Variable sentiment_model : string → string * float.

Lemma enrichment_records session_get w v w1 h w2 r w3 u s an w4 ad w' :
  fetch_vish_news session_get w = Return v w1 →
  fetch_high_speed_railways session_get w1 = Return h w2 →
  fetch_russian_railways session_get w2 = Return r w3 →
  unique_by_link ((v ++ h) ++ r) w3 = Return u w3 →
  filter_and_sort_articles u w3 = Return s w3 →
  analyze_sentiment sentiment_model s w3 = Return an w4 →
  adjust_subjectivity an w4 = Return ad w' →
  NoDup an ∧ an ≡ₚ u ∧ Forall (ready (enriched sentiment_model) w') an.
Proof.
  intros Hv Hh Hr Hu Hs Han Had.
  destruct (fetches_Return _ _ _ _ _ _ _ _ Hv Hh Hr) as (new & Hheap & Hall & Hnew).
  apply unique_by_link_Return in Hu as (_ & Hsub & Hnd).
  apply filter_and_sort_articles_Return in Hs as (_ & Hperm).
  apply analyze_sentiment_Return in Han as (-> & Hready & ->).
  apply adjust_subjectivity_Return in Had as (_ & _ & ->).
  rewrite Hall in Hsub, Hnd. specialize (Hnd (NoDup_seq _ _)).
  split; [by rewrite <- Hperm|]. split; [done|].
  apply Forall_forall. intros a Ha.
  rewrite Forall_forall in Hready. destruct (Hready a Ha) as (d0 & Hd0 & Ht).
  assert (a ∈ seq (length (heap w)) (length new)) as Hfresh
    by (apply Hsub; by rewrite Hperm).
  apply fresh_lookup in Hfresh as (d & Hd & Hin).
  rewrite <- Hheap, Hd0 in Hd. injection Hd as <-.
  exists (adjusted (scored sentiment_model d0)). simpl. split.
  - rewrite !update_at_lookup, Hd0. simpl.
    by rewrite !bool_decide_eq_true_2.
  - exists d0. rewrite Forall_forall in Hnew. auto.
Qed.

Lemma enriched_title d :
  enriched sentiment_model d → text_title d ∧ d !! "description" = None.
Proof.
  intros (d0 & (t & u & p & ->) & Ht & ->).
  unfold text_title. by rewrite !adjusted_lookup_ne, !scored_lookup_ne.
Qed.

Lemma enriched_text_members d : enriched sentiment_model d → text_members d.
Proof.
  intros [[t Ht] Hd]%enriched_title. unfold text_members, text_of.
  rewrite Ht, Hd. eauto.
Qed.

End enrichment.

Section assembler.

Variable lower : string → string.
Variable sentiment_model : string → string * float.

(** [main] returns exactly when its stages, run in their order, return. *)
Lemma main_Return session_get w b w' :
  main lower sentiment_model session_get w = Return b w' ↔
  pipeline_run lower sentiment_model session_get w b w'.
Proof.
  unfold main, pipeline_run. split.
  - intros (v & w1 & Hv & H)%bind_Return_inv.
    apply bind_Return_inv in H as (h & w2 & Hh & H).
    apply bind_Return_inv in H as (r & w3 & Hr & H).
    apply bind_Return_inv in H as (u & w3' & Hu & H).
    pose proof Hu as (-> & _)%unique_by_link_Return.
    apply bind_Return_inv in H as (s & w3' & Hs & H).
    pose proof Hs as (-> & _)%filter_and_sort_articles_Return.
    apply bind_Return_inv in H as (an & w4 & Han & H).
    apply bind_Return_inv in H as (ad & w5 & Had & H).
    pose proof Had as (-> & _)%adjust_subjectivity_Return.
    apply bind_Return_inv in H as (fv & w5' & Hfv & H).
    pose proof Hfv as (-> & _)%filter_articles_by_keywords_Return.
    apply bind_Return_inv in H as (fh & w5' & Hfh & H).
    pose proof Hfh as (-> & _)%filter_articles_by_keywords_Return.
    apply bind_Return_inv in H as (fr & w5' & Hfr & H).
    pose proof Hfr as (-> & _)%filter_articles_by_keywords_Return.
    injection H as <- <-. simpl.
    exists v, h, r, w1, w2, w3, w4. eauto 15.
  - intros (v & h & r & w1 & w2 & w3 & w4 & Hv & Hh & Hr & Hu & (s & Hs & Han)
            & Had & Hfv & Hfh & Hfr & Hfinal).
    rewrite (bind_Return _ _ _ _ _ Hv), (bind_Return _ _ _ _ _ Hh),
      (bind_Return _ _ _ _ _ Hr), (bind_Return _ _ _ _ _ Hu),
      (bind_Return _ _ _ _ _ Hs), (bind_Return _ _ _ _ _ Han),
      (bind_Return _ _ _ _ _ Had), (bind_Return _ _ _ _ _ Hfv),
      (bind_Return _ _ _ _ _ Hfh), (bind_Return _ _ _ _ _ Hfr).
    unfold mret, M_ret. rewrite <- Hfinal. by destruct b.
Qed.

Lemma pipeline_run_records session_get w b w' :
  pipeline_run lower sentiment_model session_get w b w' →
  NoDup (analyzed_articles b) ∧
  analyzed_articles b ≡ₚ unique_articles b ∧
  Forall (ready (enriched sentiment_model) w') (analyzed_articles b).
Proof.
  intros (v & h & r & w1 & w2 & w3 & w4 & Hv & Hh & Hr & Hu & (s & Hs & Han)
          & Had & _).
  eapply enrichment_records; eauto.
Qed.

Lemma bucket_matches w articles keywords out :
  Forall (ready (enriched sentiment_model) w) articles →
  filter_articles_by_keywords lower articles keywords w = Return out w →
  ∃ keep : loc → bool,
    out = filter (λ a, keep a = true) articles ∧
    ∀ a, a ∈ articles → keep a = true ↔ matches lower w keywords a.
Proof.
  intros Hall Hout.
  assert (Forall (ready text_members w) articles) as Htext.
  { eapply Forall_impl; [exact Hall|]. intros a (d & ? & ?).
    exists d. eauto using enriched_text_members. }
  rewrite (filter_articles_by_keywords_text lower _ _ _ Htext) in Hout.
  injection Hout as <-.
  exists (λ a, bool_decide (verdict lower w keywords a = Some true)). split.
  - apply list_filter_iff. intros a. by rewrite bool_decide_eq_true.
  - intros a Ha. rewrite Forall_forall in Htext.
    destruct (verdict_text lower w keywords a (Htext a Ha)) as (b & Hb & Hm).
    rewrite bool_decide_eq_true, Hb, <- Hm. naive_solver.
Qed.

Lemma matches_title_only w keywords a :
  lower "" = "" → ready (enriched sentiment_model) w a →
  matches lower w keywords a ↔ title_matches lower w keywords a.
Proof.
  intros Hlower (d & Ha & [[t Ht] Hd]%enriched_title).
  unfold matches, title_matches. split.
  - intros (d' & Ha' & k & t' & s & Hk & Ht' & Hs & Hocc).
    assert (d' = d) as -> by congruence. exists d. split; [done|].
    unfold text_of in Ht', Hs. rewrite Ht in Ht'. rewrite Hd in Hs.
    injection Ht' as <-. injection Hs as <-.
    exists k, t. repeat split; [done..|].
    destruct Hocc as [?|Hocc]; [done|]. rewrite Hlower in Hocc.
    apply occurs_in_empty in Hocc as ->. apply occurs_in_empty_l.
  - intros (d' & Ha' & k & t' & Hk & Ht' & Hocc).
    assert (d' = d) as -> by congruence. exists d. split; [done|].
    exists k, t', "". unfold text_of. rewrite Ht', Hd. eauto.
Qed.

(** With the three topic queries answered, every stage of [main] goes
    through. *)
Lemma main_answered session_get w :
  Forall (λ q, answered (session_get q)) topic_queries →
  ∃ b w', pipeline_run lower sentiment_model session_get w b w'.
Proof.
  intros Hq.
  destruct (fetches_answered session_get w Hq)
    as (v & w1 & h & w2 & r & w3 & new & Hv & Hh & Hr & Hheap & Hnew).
  destruct (fetches_Return _ _ _ _ _ _ _ _ Hv Hh Hr) as (new' & Hheap' & Hall & _).
  assert (new' = new) as -> by (apply (app_inv_head (heap w)); congruence).
  set (all := (v ++ h) ++ r) in *.
  assert (∀ a, a ∈ all → ∃ d, heap w3 !! a = Some d ∧ is_fetched_text d) as Hrec.
  { intros a Ha. rewrite Hall in Ha. apply fresh_lookup in Ha as (d & Hd & Hin).
    exists d. rewrite Hheap. split; [done|].
    rewrite Forall_forall in Hnew. auto. }
  destruct (link_comprehension_spec w3 all [] []) as (d & Hd & _).
  { apply Forall_forall.
    intros a (d & Ha & (t & u & p & _ & Hl & _)%fetched_text_fields)%Hrec.
    exists u. by eapply str_field_lookup. }
  { split; constructor. }
  { done. }
  assert (unique_by_link all w3 = Return (d.*2) w3) as Hu.
  { unfold unique_by_link. by rewrite (bind_Return _ _ _ _ _ Hd). }
  pose proof Hu as (_ & Hsub & _)%unique_by_link_Return.
  destruct (filter_and_sort_articles_total (d.*2) w3) as (s & Hs).
  { apply Forall_forall. intros a Ha%Hsub%Hrec.
    destruct Ha as (d' & Ha & (t & u & p & _ & _ & Hp)%fetched_text_fields).
    exists p. by eapply str_field_lookup. }
  pose proof Hs as (_ & Hperm)%filter_and_sort_articles_Return.
  assert (∀ a, a ∈ s → ∃ d, heap w3 !! a = Some d ∧ is_fetched_text d) as Hrec'.
  { intros a Ha. apply Hrec, Hsub. by rewrite Hperm. }
  set (w4 := World (update_at (scored sentiment_model) s (heap w3))
                   (calls w3 ++ s ≫= log_of title_call w3)).
  assert (analyze_sentiment sentiment_model s w3 = Return s w4) as Han.
  { apply analyze_sentiment_Return. split; [done|]. split; [|done].
    apply Forall_forall. intros a Ha%Hrec'.
    destruct Ha as (d' & Ha & (t & u & p & Ht & _)%fetched_text_fields).
    exists d'. split; [done|]. by exists t. }
  set (w' := World (update_at adjusted s (heap w4)) (calls w4)).
  assert (adjust_subjectivity s w4 = Return s w') as Had.
  { apply adjust_subjectivity_Return. split; [done|]. split; [|done].
    apply Forall_forall. intros a Ha.
    destruct (Hrec' a Ha) as (d' & Hd' & (t & u & p & Ht & _)%fetched_text_fields).
    exists (scored sentiment_model d'). simpl. rewrite update_at_lookup, Hd'. simpl.
    rewrite bool_decide_eq_true_2 by done. split; [done|].
    unfold scored. rewrite Ht. by rewrite lookup_insert_ne, lookup_insert_eq. }
  destruct (enrichment_records _ _ _ _ _ _ _ _ _ _ _ _ _ _ _ Hv Hh Hr Hu Hs Han Had)
    as (_ & _ & Henr).
  assert (Forall (ready text_members w') s) as Htext.
  { eapply Forall_impl; [exact Henr|]. intros a (d' & ? & ?).
    exists d'. eauto using enriched_text_members. }
  pose proof (filter_articles_by_keywords_text lower s keywords_vish w' Htext)
    as Hfv.
  pose proof (filter_articles_by_keywords_text lower s keywords_high_speed w' Htext)
    as Hfh.
  pose proof (filter_articles_by_keywords_text lower s keywords_rzd w' Htext)
    as Hfr.
  eexists (Bundle (d.*2) s _ _ _ _), w'.
  exists v, h, r, w1, w2, w3, w4. simpl.
  repeat (split; [eassumption|]).
  split; [exists s; by split|]. split; [exact Had|].
  split; [exact Hfv|]. split; [exact Hfh|]. split; [exact Hfr|]. reflexivity.
Qed.

(** C7.  With the three topic queries answered, [main] returns a bundle
    of six collections built by the stages in their fixed order: the
    three fetches, deduplication of their concatenation, sorting, scoring,
    adjustment, and the three keyword filters over the adjusted list.
    Each bucket holds exactly the analyzed articles that match its
    keywords; [final_articles] is the three buckets one after the other,
    so an article occurs in it once for every bucket that holds it. *)
Theorem main_assembles_buckets (session_get : string → get_outcome) (w : world) :
  Forall (λ q, answered (session_get q)) topic_queries →
  ∃ b w',
    main lower sentiment_model session_get w = Return b w' ∧
    pipeline_run lower sentiment_model session_get w b w' ∧
    final_articles b =
      filtered_vish b ++ filtered_high_speed b ++ filtered_rzd b ∧
    (∀ a, a ∈ filtered_vish b ↔
          a ∈ analyzed_articles b ∧ matches lower w' keywords_vish a) ∧
    (∀ a, a ∈ filtered_high_speed b ↔
          a ∈ analyzed_articles b ∧ matches lower w' keywords_high_speed a) ∧
    (∀ a, a ∈ filtered_rzd b ↔
          a ∈ analyzed_articles b ∧ matches lower w' keywords_rzd a) ∧
    (∀ a, length (filter (a =.) (final_articles b)) =
          length (filter (λ l, a ∈ l)
                    [filtered_vish b; filtered_high_speed b; filtered_rzd b])).
Proof.
  intros Hq. destruct (main_answered session_get w Hq) as (b & w' & Hrun).
  exists b, w'. split; [by apply main_Return|]. split; [done|].
  destruct (pipeline_run_records _ _ _ _ Hrun) as (Hnd & _ & Henr).
  destruct Hrun as (v & h & r & w1 & w2 & w3 & w4 & _ & _ & _ & _ & _ & _
                    & Hfv & Hfh & Hfr & Hfinal).
  destruct (bucket_matches _ _ _ _ Henr Hfv) as (kv & Ev & Hkv).
  destruct (bucket_matches _ _ _ _ Henr Hfh) as (kh & Eh & Hkh).
  destruct (bucket_matches _ _ _ _ Henr Hfr) as (kr & Er & Hkr).
  split; [by rewrite Hfinal, <- app_assoc|].
  split; [|split; [|split]].
  - intros a. rewrite Ev, list_elem_of_filter. naive_solver.
  - intros a. rewrite Eh, list_elem_of_filter. naive_solver.
  - intros a. rewrite Er, list_elem_of_filter. naive_solver.
  - intros a. rewrite Hfinal.
    apply occurrences_buckets; [rewrite Ev|rewrite Eh|rewrite Er];
      by apply NoDup_filter.
Qed.

Lemma bucket_title_only w articles keywords out :
  lower "" = "" →
  Forall (ready (enriched sentiment_model) w) articles →
  filter_articles_by_keywords lower articles keywords w = Return out w →
  ∃ keep : loc → bool,
    out = filter (λ a, keep a = true) articles ∧
    ∀ a, a ∈ articles → keep a = true ↔ title_matches lower w keywords a.
Proof.
  intros Hlower Henr Hout.
  destruct (bucket_matches _ _ _ _ Henr Hout) as (keep & -> & Hkeep).
  exists keep. split; [done|]. intros a Ha. rewrite (Hkeep a Ha).
  apply matches_title_only; [done|]. rewrite Forall_forall in Henr. auto.
Qed.

(** C10.  Every record that [fetch_news] returns has exactly the keys
    [title], [link] and [published].  Hence in every run of [main] that
    reaches the filters no analyzed article has a [description], the
    description operand of the match is the empty string, and (the empty
    string lowering to itself) each bucket is exactly the subsequence of
    the analyzed articles with a keyword in the title. *)
Theorem fetched_records_title_only (session_get : string → get_outcome)
    (w : world) :
  (∀ query l w', fetch_news session_get query w = Return l w' →
     ∀ a, a ∈ l →
       ∃ d, heap w' !! a = Some d ∧
            dom d = ({["title"; "link"; "published"]} : gset string)) ∧
  (lower "" = "" →
   ∀ b w', main lower sentiment_model session_get w = Return b w' →
     (∀ a, a ∈ analyzed_articles b → field w' "description" a = None) ∧
     ∃ vish high_speed rzd : loc → bool,
       filtered_vish b =
         filter (λ a, vish a = true) (analyzed_articles b) ∧
       filtered_high_speed b =
         filter (λ a, high_speed a = true) (analyzed_articles b) ∧
       filtered_rzd b =
         filter (λ a, rzd a = true) (analyzed_articles b) ∧
       ∀ a, a ∈ analyzed_articles b →
         (vish a = true ↔ title_matches lower w' keywords_vish a) ∧
         (high_speed a = true ↔ title_matches lower w' keywords_high_speed a) ∧
         (rzd a = true ↔ title_matches lower w' keywords_rzd a)).
Proof.
  split.
  - intros query l w' (new & Hheap & _ & -> & Hnew)%fetch_news_Return a Ha.
    apply fresh_lookup in Ha as (d & Hd & Hin). exists d.
    rewrite Hheap. split; [done|]. apply is_fetched_dom.
    rewrite Forall_forall in Hnew. auto.
  - intros Hlower b w' Hrun%main_Return.
    destruct (pipeline_run_records _ _ _ _ Hrun) as (_ & _ & Henr).
    destruct Hrun as (v & h & r & w1 & w2 & w3 & w4 & _ & _ & _ & _ & _ & _
                      & Hfv & Hfh & Hfr & _).
    split.
    + intros a Ha. rewrite Forall_forall in Henr.
      destruct (Henr a Ha) as (d & Hd & [_ Hdesc]%enriched_title).
      unfold field. by rewrite Hd.
    + destruct (bucket_title_only _ _ _ _ Hlower Henr Hfv) as (kv & Ev & Hkv).
      destruct (bucket_title_only _ _ _ _ Hlower Henr Hfh) as (kh & Eh & Hkh).
      destruct (bucket_title_only _ _ _ _ Hlower Henr Hfr) as (kr & Er & Hkr).
      exists kv, kh, kr. repeat split; try done; naive_solver.
Qed.

End assembler.

(** ** The stages on the sample data *)

Example lower_ru_sample : lower_ru "РЖД Объявила Tender" = "ржд объявила tender".
Proof. reflexivity. Qed.

(** The keyword ["РЖД"] keeps the article titled ["РЖД объявила тендер"]
    and no article without the keyword in title or description. *)
Example filter_rzd_sample :
  filter_articles_by_keywords lower_ru [0; 1; 2] ["РЖД"] sample_world
  = Return [0] sample_world.
Proof. vm_compute. reflexivity. Qed.

(** Fetches of two, none and three articles with one link in common: four
    unique articles; the bucket of the national railways holds two
    articles, one of them also in the bucket of the engineering school. *)
Example main_sample :
  ∃ w', main lower_ru first_byte_model sample_get (World [] []) =
          Return (Bundle [3; 1; 2; 4] [1; 2; 4; 3] [3] [] [2; 3] [3; 2; 3]) w' ∧
        field w' "sentiment" 3 = Some (VStr "NEUTRAL") ∧
        field w' "subjectivity" 3 = Some (VFloat neutral_subjectivity).
Proof. eexists. split; [vm_compute; reflexivity|]. split; reflexivity. Qed.

(** Articles 0 and 2 share their link: the later one stays, in the place
    of the first. *)
Example unique_by_link_sample :
  unique_by_link [0; 1; 2] sample_world = Return [2; 1] sample_world.
Proof. reflexivity. Qed.

(** Articles 1 and 2 have the same [published] and keep their order. *)
Example filter_and_sort_articles_sample :
  filter_and_sort_articles [0; 1; 2] sample_world = Return [1; 2; 0] sample_world.
Proof. reflexivity. Qed.

(** A request that fails before any response exists ends the whole run. *)
Example main_connection_error lower sentiment_model w :
  main lower sentiment_model (λ _, GetRaises ConnectionError) w
  = Raise (UnboundLocalError "response") w.
Proof. reflexivity. Qed.

Ltac present := eexists; reflexivity.
Ltac all_present := repeat (constructor; [present|]); constructor.

Lemma unique_by_link_last_wins_witness :
  Forall (λ a, is_Some (link sample_world a)) [0; 1; 2] ∧
  ∃ u, unique_by_link [0; 1; 2] sample_world = Return u sample_world ∧
       NoDup (link sample_world <$> u) ∧
       last_with_link sample_world "https://news.example/1" [0; 1; 2] = Some 2 ∧
       2 ∈ u.
Proof.
  assert (Forall (λ a, is_Some (link sample_world a)) [0; 1; 2]) as H
    by all_present.
  split; [exact H|].
  destruct (unique_by_link_last_wins sample_world [0; 1; 2] H)
    as (u & Hu & Hnd & _ & Hlast & _).
  exists u. split; [exact Hu|]. split; [exact Hnd|]. split; [reflexivity|].
  apply (Hlast "https://news.example/1" 2). reflexivity.
Defined.

Lemma filter_and_sort_articles_sorted_stable_witness :
  Forall (λ a, is_Some (published sample_world a)) [0; 1; 2] ∧
  ∃ out, filter_and_sort_articles [0; 1; 2] sample_world = Return out sample_world ∧
         [0; 1; 2] ≡ₚ out ∧ non_increasing sample_world out.
Proof.
  assert (Forall (λ a, is_Some (published sample_world a)) [0; 1; 2]) as H
    by all_present.
  split; [exact H|].
  destruct (filter_and_sort_articles_sorted_stable sample_world [0; 1; 2] H)
    as (out & Hout & Hperm & Hord & _).
  exists out. auto.
Defined.

Lemma analyze_sentiment_scores_titles_witness :
  Forall (λ a, is_Some (title sample_world a)) [0; 1] ∧
  ∃ w', analyze_sentiment first_byte_model [0; 1] sample_world = Return [0; 1] w' ∧
        field w' "sentiment" 1 = Some (VStr "POSITIVE").
Proof.
  assert (Forall (λ a, is_Some (title sample_world a)) [0; 1]) as H
    by all_present.
  split; [exact H|].
  destruct (analyze_sentiment_scores_titles first_byte_model sample_world [0; 1] H)
    as (w' & titles & Hret & _ & _ & Hrec & _).
  exists w'. split; [exact Hret|].
  destruct (Hrec 1) as (t & Ht & Hs & _); [right; left|].
  injection Ht as <-. exact Hs.
Defined.

Lemma adjust_subjectivity_neutral_only_witness :
  Forall (λ a, is_Some (field sample_scored "sentiment" a)) [0; 1] ∧
  ∃ w', adjust_subjectivity [0; 1] sample_scored = Return [0; 1] w' ∧
        field w' "subjectivity" 0 = Some (VFloat neutral_subjectivity) ∧
        heap w' !! 1 = heap sample_scored !! 1.
Proof.
  assert (Forall (λ a, is_Some (field sample_scored "sentiment" a)) [0; 1]) as H
    by all_present.
  split; [exact H|].
  destruct (adjust_subjectivity_neutral_only sample_scored [0; 1] H)
    as (w' & Hret & _ & Hrec & _).
  exists w'. split; [exact Hret|]. split.
  - destruct (Hrec 0 _ ltac:(left) eq_refl) as [Hn _].
    unfold field. rewrite (Hn eq_refl). reflexivity.
  - destruct (Hrec 1 _ ltac:(right; left) eq_refl) as [_ Hp].
    apply Hp. discriminate.
Defined.

Lemma adjust_subjectivity_idempotent_witness :
  Forall (λ a, is_Some (field sample_scored "sentiment" a)) [0; 1] ∧
  ∃ w', adjust_subjectivity [0; 1] sample_scored = Return [0; 1] w' ∧
        adjust_subjectivity [0; 1] w' = Return [0; 1] w'.
Proof.
  assert (Forall (λ a, is_Some (field sample_scored "sentiment" a)) [0; 1]) as H
    by all_present.
  split; [exact H|].
  exact (adjust_subjectivity_idempotent sample_scored [0; 1] H).
Defined.

Lemma sample_text_members w l :
  Forall (λ a, ∃ d, heap w !! a = Some d ∧
                    is_Some (text_of d "title") ∧
                    is_Some (text_of d "description")) l →
  Forall (ready text_members w) l.
Proof. done. Qed.

Lemma filter_articles_by_keywords_subsequence_witness :
  Forall (ready text_members sample_scored) [0; 1] ∧
  ∃ keep : loc → bool,
    filter_articles_by_keywords lower_ru [0; 1] keywords_rzd sample_scored =
      Return (filter (λ a, keep a = true) [0; 1]) sample_scored ∧
    (keep 0 = true ↔ matches lower_ru sample_scored keywords_rzd 0).
Proof.
  assert (Forall (ready text_members sample_scored) [0; 1]) as H.
  { apply sample_text_members.
    repeat (constructor; [eexists; split; [reflexivity|split; present]|]).
    constructor. }
  split; [exact H|].
  destruct (filter_articles_by_keywords_subsequence lower_ru sample_scored
              [0; 1] keywords_rzd H) as (keep & Hret & Hkeep).
  exists keep. split; [exact Hret|]. apply Hkeep. left.
Defined.

Lemma later_stages_preserve_order_witness :
  non_increasing sample_scored [1; 0] ∧
  (∃ w', analyze_sentiment first_byte_model [1; 0] sample_scored = Return [1; 0] w' ∧
         non_increasing w' [1; 0]) ∧
  (∃ w', adjust_subjectivity [1; 0] sample_scored = Return [1; 0] w' ∧
         non_increasing w' [1; 0]) ∧
  (∃ out, filter_articles_by_keywords lower_ru [1; 0] keywords_rzd sample_scored
            = Return out sample_scored ∧
          non_increasing sample_scored out).
Proof.
  assert (non_increasing sample_scored [1; 0]) as H.
  { apply non_increasing_Sorted. repeat constructor.
    eexists _, _. repeat split; reflexivity. }
  split; [exact H|].
  destruct (later_stages_preserve_order lower_ru first_byte_model sample_scored
              [1; 0] keywords_rzd H) as (Han & Had & Hf).
  split; [apply Han; all_present|].
  split; [apply Had; all_present|].
  apply Hf, sample_text_members.
  repeat (constructor; [eexists; split; [reflexivity|split; present]|]).
  constructor.
Defined.

Lemma sample_get_answered :
  Forall (λ q, answered (sample_get q)) topic_queries.
Proof.
  assert (∀ l, Forall (λ d, ∃ t u p, d = sample_raw t u p) l →
               Forall raw_article l) as Hraw.
  { intros l Hl. eapply Forall_impl; [exact Hl|].
    intros d (t & u & p & ->). by exists t, u, p. }
  unfold topic_queries. repeat apply Forall_cons_2; [| |  |constructor].
  - right. apply Hraw. repeat (constructor; [by eexists _, _, _|]). constructor.
  - by left.
  - right. apply Hraw. repeat (constructor; [by eexists _, _, _|]). constructor.
Qed.

Lemma main_assembles_buckets_witness :
  Forall (λ q, answered (sample_get q)) topic_queries ∧
  ∃ b w', main lower_ru first_byte_model sample_get (World [] []) = Return b w' ∧
          final_articles b =
            filtered_vish b ++ filtered_high_speed b ++ filtered_rzd b.
Proof.
  split; [exact sample_get_answered|].
  destruct (main_assembles_buckets lower_ru first_byte_model sample_get
              (World [] []) sample_get_answered)
    as (b & w' & Hmain & _ & Hfinal & _).
  exists b, w'. split; [exact Hmain | exact Hfinal].
Defined.

Lemma fetched_records_title_only_witness :
  (∃ l w', fetch_news sample_get "ВСМ" (World [] []) = Return l w' ∧
           ∀ a, a ∈ l →
             ∃ d, heap w' !! a = Some d ∧
                  dom d = ({["title"; "link"; "published"]} : gset string)) ∧
  lower_ru "" = "" ∧
  ∃ b w', main lower_ru first_byte_model sample_get (World [] []) = Return b w' ∧
          ∀ a, a ∈ analyzed_articles b → field w' "description" a = None.
Proof.
  destruct (fetched_records_title_only lower_ru first_byte_model sample_get
              (World [] [])) as [Hfetch Hmain].
  split.
  { eexists _, _. split; [reflexivity|]. by apply (Hfetch "ВСМ"). }
  split; [reflexivity|].
  specialize (Hmain eq_refl).
  eexists _, _. split; [vm_compute; reflexivity|].
  eapply Hmain. vm_compute. reflexivity.
Defined.

(** * Further properties of the code *)

(** ** The fetcher *)

Lemma fetched_article_complete raw w :
  (∃ a w', fetched_article raw w = Return a w') ↔ complete raw.
Proof.
  unfold complete. split.
  - intros (a & w' & (t & u & p & Ht & Hu & Hp & _)%fetched_article_Return).
    rewrite Ht, Hu, Hp. eauto.
  - intros ([t Ht] & [u Hu] & [p Hp]). do 2 eexists.
    apply fetched_article_Return. by exists t, u, p.
Qed.

Lemma fetched_articles_records raws w :
  Forall complete raws →
  ∃ new, Forall2 (λ raw d, record_of raw = Some d) raws new ∧
         fetched_articles raws w =
           Return (seq (length (heap w)) (length raws))
                  (World (heap w ++ new) (calls w)).
Proof.
  intros Hraws. revert w.
  induction Hraws as [|raw raws ([t Ht] & [u Hu] & [p Hp]) _ IH]; intros w.
  - exists []. split; [constructor|]. simpl. unfold mret, M_ret.
    destruct w. by rewrite app_nil_r.
  - assert (fetched_article raw w =
      Return (length (heap w))
             (World (heap w ++ [fetched_record t u p]) (calls w))) as Ha
      by (apply fetched_article_Return; by exists t, u, p).
    destruct (IH (World (heap w ++ [fetched_record t u p]) (calls w)))
      as (new & Hnew & Hl).
    exists (fetched_record t u p :: new). split.
    + constructor; [|done]. unfold record_of. by rewrite Ht, Hu, Hp.
    + simpl. rewrite (bind_Return _ _ _ _ _ Ha), (bind_Return _ _ _ _ _ Hl).
      unfold mret, M_ret. simpl.
      by rewrite <- app_assoc, length_app, Nat.add_1_r.
Qed.

Lemma fetched_articles_returns raws w :
  (∃ l w', fetched_articles raws w = Return l w') ↔ Forall complete raws.
Proof.
  split.
  - intros (l & w' & H). revert w l w' H.
    induction raws as [|raw raws IH]; intros w l w' H; [constructor|].
    simpl in H. apply bind_Return_inv in H as (a & w1 & Ha & H).
    apply bind_Return_inv in H as (l1 & w2 & Hl & _).
    constructor; [apply (fetched_article_complete raw w); eauto | eauto].
  - intros H. destruct (fetched_articles_records raws w H) as (new & _ & Hr).
    eauto.
Qed.


(** X2.  On a response with a good status and a body whose articles all
    have the three members, [fetch_news] appends one new record per raw
    article to the store, in the order of the body, and returns the
    references to them: each record holds the [title] of its raw article,
    its [url] under [link] and its [publishedAt] under [published], and
    nothing else; the records already in the store and the classifier log
    stay as they are. *)
Theorem fetch_news_records (session_get : string → get_outcome)
    (query : string) (r : response) (raws : list dict) (w : world) :
  session_get query = GetReturns r →
  is_error_status r = false →
  body r = Body (Some raws) →
  Forall complete raws →
  ∃ new, Forall2 (λ raw d, record_of raw = Some d) raws new ∧
         fetch_news session_get query w =
           Return (seq (length (heap w)) (length raws))
                  (World (heap w ++ new) (calls w)).
Proof.
  intros Hget Hstatus Hbody Hraws.
  destruct (fetched_articles_records raws w Hraws) as (new & Hnew & Hl).
  exists new. split; [done|].
  unfold fetch_news, fetch_try. rewrite Hget, Hstatus. simpl.
  rewrite bind_unfold. simpl. unfold response_articles.
  rewrite bind_unfold, Hbody. exact Hl.
Qed.

(** X3.  When the response has an error status (400 to 599), or has a
    good status and a body without [articles] or with an empty list of
    them, [fetch_news] returns the empty list and leaves the world as it
    was. *)
Theorem fetch_news_nothing (session_get : string → get_outcome)
    (query : string) (r : response) (w : world) :
  session_get query = GetReturns r →
  ((400 ≤ status_code r < 600)%Z ∨
   body r = Body None ∨ body r = Body (Some [])) →
  fetch_news session_get query w = Return [] w.
Proof.
  intros Hget Hcase. unfold fetch_news, fetch_try. rewrite Hget.
  destruct (is_error_status r) eqn:Hstatus; [done|].
  destruct Hcase as [Hrange|Hbody].
  - unfold is_error_status in Hstatus.
    apply andb_false_iff in Hstatus as [?%Z.leb_gt|?%Z.ltb_ge]; lia.
  - simpl. rewrite bind_unfold. simpl. unfold response_articles.
    rewrite bind_unfold. by destruct Hbody as [-> | ->].
Qed.

Lemma fetched_articles_incomplete pre raw post w :
  Forall complete pre → ¬ complete raw →
  ∃ k w', raw !! k = None ∧
          fetched_articles (pre ++ raw :: post) w = Raise (KeyError k) w'.
Proof.
  intros Hpre Hraw. revert w.
  induction Hpre as [|raw0 pre ([t Ht] & [u Hu] & [p Hp]) _ IH]; intros w.
  - simpl. rewrite bind_unfold. unfold fetched_article, dict_getitem.
    rewrite bind_unfold.
    destruct (raw !! "title") as [t|] eqn:Ht; simpl;
      [|by exists "title", w].
    rewrite bind_unfold.
    destruct (raw !! "url") as [u|] eqn:Hu; simpl; [|by exists "url", w].
    rewrite bind_unfold.
    destruct (raw !! "publishedAt") as [p|] eqn:Hp; simpl;
      [|by exists "publishedAt", w].
    destruct Hraw. unfold complete. rewrite Ht, Hu, Hp. eauto.
  - assert (fetched_article raw0 w =
      Return (length (heap w))
             (World (heap w ++ [fetched_record t u p]) (calls w))) as Ha
      by (apply fetched_article_Return; by exists t, u, p).
    destruct (IH (World (heap w ++ [fetched_record t u p]) (calls w)))
      as (k & w' & Hk & Hr).
    exists k, w'. split; [done|]. simpl.
    rewrite (bind_Return _ _ _ _ _ Ha), bind_unfold. by rewrite Hr.
Qed.

(** X4.  On a response with a good status whose body holds a raw article
    without [title], [url] or [publishedAt], the articles before it being
    complete, [fetch_news] raises [KeyError] for a member that this
    article lacks; nothing is returned for the articles that were
    complete. *)
Theorem fetch_news_missing_member (session_get : string → get_outcome)
    (query : string) (r : response) (pre post : list dict) (raw : dict)
    (w : world) :
  session_get query = GetReturns r →
  is_error_status r = false →
  body r = Body (Some (pre ++ raw :: post)) →
  Forall complete pre → ¬ complete raw →
  ∃ k w', raw !! k = None ∧
          fetch_news session_get query w = Raise (KeyError k) w'.
Proof.
  intros Hget Hstatus Hbody Hpre Hraw.
  destruct (fetched_articles_incomplete pre raw post w Hpre Hraw)
    as (k & w' & Hk & Hr).
  exists k, w'. split; [done|].
  unfold fetch_news, fetch_try. rewrite Hget, Hstatus. simpl.
  rewrite bind_unfold. simpl. unfold response_articles.
  rewrite bind_unfold, Hbody. exact Hr.
Qed.

Ltac all_complete :=
  repeat (constructor; [repeat split; present|]); constructor.

Lemma fetch_news_records_witness :
  ∃ new, Forall2 (λ raw d, record_of raw = Some d)
           [sample_raw "+ВИШ набирает студентов" "https://news.example/a"
              "2024-03-01T08:00:00Z";
            sample_raw "-Погода" "https://news.example/b"
              "2024-03-03T08:00:00Z"] new ∧
         fetch_news sample_get "Высшая инженерная школа" sample_world =
           Return [3; 4] (World (heap sample_world ++ new) []).
Proof.
  refine (fetch_news_records sample_get "Высшая инженерная школа"
            (Response 200 (Body (Some
               [sample_raw "+ВИШ набирает студентов" "https://news.example/a"
                  "2024-03-01T08:00:00Z";
                sample_raw "-Погода" "https://news.example/b"
                  "2024-03-03T08:00:00Z"]))) _ sample_world
            eq_refl eq_refl eq_refl _).
  all_complete.
Defined.

Lemma fetch_news_nothing_witness :
  fetch_news sample_get "ВСМ" sample_world = Return [] sample_world.
Proof.
  apply (fetch_news_nothing sample_get "ВСМ" (Response 429 Undecodable));
    [reflexivity | left; simpl; lia].
Defined.

Lemma fetch_news_missing_member_witness :
  ∃ k w', (<["publishedAt" := VStr "2024-03-02T08:00:00Z"]>
             (<["title" := VStr "Курс валют"]> ∅) : dict) !! k = None ∧
          fetch_news (λ _, GetReturns (Response 200 (Body (Some sample_incomplete))))
            "ВСМ" sample_world = Raise (KeyError k) w'.
Proof.
  apply (fetch_news_missing_member
           (λ _, GetReturns (Response 200 (Body (Some sample_incomplete))))
           "ВСМ" (Response 200 (Body (Some sample_incomplete)))
           [sample_raw "РЖД объявила тендер" "https://news.example/c"
              "2024-03-02T08:00:00Z"] []);
    [reflexivity | reflexivity | reflexivity | all_complete|].
  intros (_ & [u Hu] & _). discriminate Hu.
Defined.

(** ** The deduplicator *)

Lemma link_comprehension_missing w pre e post d0 d :
  Forall (λ a, is_Some (field w "link" a)) pre →
  heap w !! e = Some d0 → d0 !! "link" = None →
  link_comprehension (pre ++ e :: post) d w = Raise (KeyError "link") w.
Proof.
  intros Hpre He Hd0. revert d.
  induction Hpre as [|a pre [k Hk] _ IH]; intros d; simpl.
  - rewrite bind_unfold. unfold getitem, deref. rewrite bind_unfold, He.
    simpl. unfold dict_getitem. by rewrite Hd0.
  - rewrite (bind_Return _ _ _ _ _ (getitem_field _ _ _ _ Hk)). apply IH.
Qed.

(** X5.  When an article of the input has no [link], those before it
    having one, deduplication raises [KeyError] for [link] and leaves the
    world as it was. *)
Theorem unique_by_link_missing_link (w : world) (pre post : list loc)
    (e : loc) (d0 : dict) :
  Forall (λ a, is_Some (field w "link" a)) pre →
  heap w !! e = Some d0 → d0 !! "link" = None →
  unique_by_link (pre ++ e :: post) w = Raise (KeyError "link") w.
Proof.
  intros Hpre He Hd0. unfold unique_by_link. rewrite bind_unfold.
  by rewrite (link_comprehension_missing w pre e post d0 [] Hpre He Hd0).
Qed.

Lemma odict_set_fresh k v d :
  odict_get k d = None → odict_set k v d = d ++ [(k, v)].
Proof.
  induction d as [|[k' v'] d IH]; simpl; [done|].
  destruct (py_eq k' k); [done|]. intros H. by rewrite IH.
Qed.

Lemma link_with_link w a s :
  link w a = Some s → with_link w a = (VStr s, a) ∧ field w "link" a = Some (VStr s).
Proof.
  unfold link, str_field, with_link.
  destruct (field w "link" a) as [[]|]; naive_solver.
Qed.

Lemma link_comprehension_distinct w rest pre :
  Forall (λ a, is_Some (link w a)) (pre ++ rest) →
  NoDup (link w <$> (pre ++ rest)) →
  link_comprehension rest (with_link w <$> pre) w =
    Return (with_link w <$> (pre ++ rest)) w.
Proof.
  revert pre. induction rest as [|e rest IH]; intros pre Hall Hnd; simpl.
  - by rewrite app_nil_r.
  - assert (is_Some (link w e)) as [s Hs].
    { rewrite Forall_app, Forall_cons in Hall. tauto. }
    destruct (link_with_link w e s Hs) as [He Hf].
    rewrite (bind_Return _ _ _ _ _ (getitem_field _ _ _ _ Hf)).
    rewrite odict_set_fresh.
    + replace (pre ++ e :: rest) with ((pre ++ [e]) ++ rest) in *
        by (by rewrite <- app_assoc).
      rewrite <- (IH (pre ++ [e]) Hall Hnd).
      by rewrite fmap_app, <- He.
    + apply odict_get_None.
      intros ([k a] & Hk & Hin)%list_elem_of_fmap. simpl in Hk. subst k.
      apply list_elem_of_fmap in Hin as (a' & Ha' & Hin).
      unfold with_link in Ha'. injection Ha' as Hlink ->.
      assert (link w a' = Some s) as Ha.
      { unfold link, str_field. destruct (field w "link" a'); simpl in *;
          by subst. }
      rewrite fmap_app, fmap_cons, Hs, NoDup_app in Hnd.
      destruct Hnd as (_ & Hdisj & _).
      apply (Hdisj (Some s)); [|left].
      rewrite <- Ha. by apply list_elem_of_fmap_2.
Qed.

(** X6.  When every article has a string [link] and no two articles of
    the input share one, deduplication returns the input as it is, in its
    order. *)
Theorem unique_by_link_distinct (w : world) (all_articles : list loc) :
  Forall (λ a, is_Some (link w a)) all_articles →
  NoDup (link w <$> all_articles) →
  unique_by_link all_articles w = Return all_articles w.
Proof.
  intros Hall Hnd. unfold unique_by_link.
  rewrite (bind_Return _ _ _ _ _
             (link_comprehension_distinct w all_articles [] Hall Hnd)).
  unfold mret, M_ret. simpl. f_equal.
  rewrite <- list_fmap_compose. apply list_fmap_id.
Qed.

Lemma keep_first_elem_of {A} `{EqDecision A} (l : list A) x :
  x ∈ keep_first l ↔ x ∈ l.
Proof.
  induction l as [|y l IH]; simpl; [done|].
  rewrite !elem_of_cons, list_elem_of_filter, IH.
  destruct (decide (x = y)); naive_solver.
Qed.

Lemma keep_first_snoc {A} `{EqDecision A} (l : list A) x :
  keep_first (l ++ [x]) =
  if decide (x ∈ l) then keep_first l else keep_first l ++ [x].
Proof.
  induction l as [|y l IH].
  { by destruct (decide (x ∈ [])) as [?%elem_of_nil|]. }
  cbn [keep_first app]. rewrite IH. destruct (decide (x = y)) as [->|Hne].
  - rewrite (decide_True (P := y ∈ y :: l)) by left.
    case_decide; [done|].
    by rewrite filter_app, filter_cons, decide_False, filter_nil, app_nil_r
      by (intros H'; by apply H').
  - rewrite (decide_ext (x ∈ y :: l) (x ∈ l)) by set_solver.
    case_decide; [done|].
    by rewrite filter_app, filter_cons, decide_True, filter_nil by done.
Qed.

Lemma odict_get_key s d a : odict_get (VStr s) d = Some a → VStr s ∈ d.*1.
Proof.
  induction d as [|[k v] d IH]; csimpl; [done|].
  destruct (py_eq k (VStr s)) eqn:Hk; [|right; auto].
  apply py_eq_str in Hk as ->. left.
Qed.

Lemma link_comprehension_keys w rest pre d d' :
  Forall (λ a, is_Some (link w a)) rest →
  key_str <$> d.*1 = keep_first (link w <$> pre) →
  link_comprehension rest d w = Return d' w →
  key_str <$> d'.*1 = keep_first (link w <$> (pre ++ rest)).
Proof.
  intros Hrest. revert pre d.
  induction Hrest as [|e rest [s Hs] _ IH]; intros pre d Hd; simpl.
  - intros [= <-]. by rewrite app_nil_r.
  - destruct (link_with_link w e s Hs) as [_ Hf].
    rewrite (bind_Return _ _ _ _ _ (getitem_field _ _ _ _ Hf)).
    replace (pre ++ e :: rest) with ((pre ++ [e]) ++ rest)
      by (by rewrite <- app_assoc).
    apply IH. rewrite odict_set_keys.
    replace (link w <$> pre ++ [e]) with ((link w <$> pre) ++ [Some s])
      by (rewrite fmap_app; simpl; by rewrite Hs).
    rewrite keep_first_snoc.
    destruct (odict_get (VStr s) d) eqn:Hget.
    + rewrite decide_True; [done|].
      apply keep_first_elem_of. rewrite <- Hd.
      pose proof (odict_get_key _ _ _ Hget) as Hin.
      by apply (list_elem_of_fmap_2 key_str) in Hin.
    + rewrite decide_False; [by rewrite fmap_app, Hd|].
      rewrite <- keep_first_elem_of, <- Hd.
      intros (k & Hk & Hin)%list_elem_of_fmap.
      symmetry in Hk. apply key_str_Some in Hk as ->.
      by apply odict_get_None in Hget.
Qed.

(** X7.  Deduplication lists the links in the order in which they first
    occur in the input: the record kept for a link is the last one with
    it, its place is that of the first. *)
Theorem unique_by_link_first_place (w : world) (all_articles : list loc) :
  Forall (λ a, is_Some (link w a)) all_articles →
  ∃ u, unique_by_link all_articles w = Return u w ∧
       link w <$> u = keep_first (link w <$> all_articles).
Proof.
  intros Hall.
  destruct (link_comprehension_spec w all_articles [] [] Hall)
    as (d & Hd & Hkeys & Hinv); [split; constructor | done |].
  exists (d.*2). unfold unique_by_link.
  rewrite (bind_Return _ _ _ _ _ Hd). split; [done|].
  pose proof (link_comprehension_keys w all_articles [] [] d Hall eq_refl Hd)
    as Hk.
  simpl in Hk. rewrite <- Hk, <- !list_fmap_compose. apply Forall_fmap_ext, Forall_forall.
  intros [k a] Hin. simpl.
  destruct (odict_get_elem_of _ _ _ Hkeys Hin) as (s & -> & Hget).
  rewrite Hinv in Hget. simpl in Hget.
  apply last_Some_elem_of, list_elem_of_filter in Hget. tauto.
Qed.

Lemma unique_by_link_missing_link_witness :
  unique_by_link [0; 1; 3] sample_bare = Raise (KeyError "link") sample_bare.
Proof.
  refine (unique_by_link_missing_link sample_bare [0] [3] 1 _ _ eq_refl eq_refl).
  all_present.
Defined.

Lemma unique_by_link_distinct_witness :
  unique_by_link [1; 0] sample_world = Return [1; 0] sample_world.
Proof.
  apply unique_by_link_distinct; [all_present|].
  apply (bool_decide_unpack _). vm_compute. exact I.
Defined.

Lemma unique_by_link_first_place_witness :
  ∃ u, unique_by_link [0; 1; 2] sample_world = Return u sample_world ∧
       link sample_world <$> u =
         [Some "https://news.example/1"; Some "https://news.example/2"].
Proof.
  refine (unique_by_link_first_place sample_world [0; 1; 2] _). all_present.
Defined.

(** ** The sorter *)

Lemma string_leb_ltb_false p q : String.leb q p = true → String.ltb p q = false.
Proof.
  unfold String.ltb, String.leb. rewrite (String.compare_antisym p q).
  by destruct (String.compare q p).
Qed.

Lemma sort_desc_sorted l : Sorted key_ge l → sort_desc l = inr l.
Proof.
  induction 1 as [|x l _ IH Hhd]; simpl; [done|].
  rewrite IH. destruct Hhd as [|y l (p & q & Hp & Hq & Hle)]; simpl; [done|].
  by rewrite (py_lt_str _ _ _ _ Hp Hq), (string_leb_ltb_false _ _ Hle).
Qed.

Lemma Sorted_with_key_2 w l :
  Sorted (published_ge w) l → Sorted key_ge (with_key w <$> l).
Proof.
  induction 1 as [|a l _ IH Hhd]; csimpl; constructor; [done|].
  destruct Hhd; csimpl; constructor. by apply key_ge_with_key.
Qed.

(** X8.  A list that is already in non-increasing order of [published]
    comes back from the sorter as it is. *)
Theorem filter_and_sort_articles_sorted_input (w : world) (articles : list loc) :
  Forall (λ a, is_Some (published w a)) articles →
  non_increasing w articles →
  filter_and_sort_articles articles w = Return articles w.
Proof.
  intros Hpub Hord.
  assert (Forall (λ a, is_Some (field w "published" a)) articles) as Hfield.
  { eapply Forall_impl; [exact Hpub|]. intros a [p Hp].
    unfold published, str_field in Hp. by destruct (field w "published" a). }
  unfold filter_and_sort_articles.
  rewrite (bind_Return _ _ _ _ _ (published_keys_total _ _ Hfield)), bind_unfold.
  rewrite sort_desc_sorted.
  - simpl. unfold mret, M_ret. f_equal.
    rewrite <- list_fmap_compose. apply list_fmap_id.
  - by apply Sorted_with_key_2, non_increasing_Sorted.
Qed.

Lemma published_keys_missing w pre a post d0 :
  Forall (λ a, is_Some (field w "published" a)) pre →
  heap w !! a = Some d0 → d0 !! "published" = None →
  published_keys (pre ++ a :: post) w = Raise (KeyError "published") w.
Proof.
  intros Hpre Ha Hd0.
  induction Hpre as [|b pre [k Hk] _ IH]; simpl.
  - rewrite bind_unfold. unfold getitem, deref. rewrite bind_unfold, Ha.
    simpl. unfold dict_getitem. by rewrite Hd0.
  - rewrite (bind_Return _ _ _ _ _ (getitem_field _ _ _ _ Hk)), bind_unfold.
    by rewrite IH.
Qed.

(** X9.  When an article of the input has no [published], those before it
    having one, the sorter raises [KeyError] for [published] before it
    compares anything, and leaves the world as it was. *)
Theorem filter_and_sort_articles_missing_published (w : world)
    (pre post : list loc) (a : loc) (d0 : dict) :
  Forall (λ a, is_Some (field w "published" a)) pre →
  heap w !! a = Some d0 → d0 !! "published" = None →
  filter_and_sort_articles (pre ++ a :: post) w =
    Raise (KeyError "published") w.
Proof.
  intros Hpre Ha Hd0. unfold filter_and_sort_articles. rewrite bind_unfold.
  by rewrite (published_keys_missing w pre a post d0 Hpre Ha Hd0).
Qed.

Lemma py_lt_TypeError x y e : py_lt x y = inl e → e = TypeError.
Proof. destruct x, y; simpl; congruence. Qed.

Lemma insert_desc_TypeError x l e : insert_desc x l = inl e → e = TypeError.
Proof.
  induction l as [|y l IH]; simpl; [done|].
  destruct (py_lt x.1 y.1) as [e'|[]] eqn:Hlt.
  - intros [= <-]. by eapply py_lt_TypeError.
  - destruct (insert_desc x l); [|done]. intros [= <-]. by apply IH.
  - done.
Qed.

Lemma sort_desc_TypeError l e : sort_desc l = inl e → e = TypeError.
Proof.
  induction l as [|x l IH]; simpl; [done|].
  destruct (sort_desc l) as [e'|s].
  - intros [= <-]. by apply IH.
  - apply insert_desc_TypeError.
Qed.

Lemma sort_desc_None l :
  2 ≤ length l → Exists (λ x, x.1 = VNone) l → sort_desc l = inl TypeError.
Proof.
  induction l as [|x l IH]; simpl; [lia|]. intros Hlen Hex.
  destruct (sort_desc l) as [e|s] eqn:Hs.
  { by rewrite (sort_desc_TypeError _ _ Hs). }
  pose proof (sort_desc_Permutation _ _ Hs) as Hperm.
  destruct l as [|z l]; [simpl in Hlen; lia|].
  destruct s as [|y s]; [by apply Permutation_nil_r in Hperm|].
  apply Exists_cons in Hex as [Hx|Hex].
  - simpl. rewrite Hx. by destruct y.1.
  - destruct l as [|z' l].
    + apply Exists_cons in Hex as [Hz|Hex%Exists_nil]; [|done].
      apply Permutation_singleton_l in Hperm as [= <- <-].
      simpl. rewrite Hz. by destruct x as [[] ?].
    + specialize (IH ltac:(simpl; lia) Hex). discriminate IH.
Qed.

(** X10.  When the input has two or more articles, each with a
    [published] member, and one of them has JSON null there, the sorter
    raises [TypeError] and leaves the world as it was. *)
Theorem filter_and_sort_articles_null_published (w : world)
    (articles : list loc) :
  2 ≤ length articles →
  Forall (λ a, is_Some (field w "published" a)) articles →
  Exists (λ a, field w "published" a = Some VNone) articles →
  filter_and_sort_articles articles w = Raise TypeError w.
Proof.
  intros Hlen Hfield Hnull. unfold filter_and_sort_articles.
  rewrite (bind_Return _ _ _ _ _ (published_keys_total _ _ Hfield)), bind_unfold.
  rewrite sort_desc_None; [done | by rewrite length_fmap |].
  apply Exists_fmap. eapply Exists_impl; [exact Hnull|].
  intros a Ha. unfold with_key, published_key. simpl. by rewrite Ha.
Qed.

Lemma filter_and_sort_articles_sorted_input_witness :
  filter_and_sort_articles [2; 0] sample_world = Return [2; 0] sample_world.
Proof.
  apply filter_and_sort_articles_sorted_input; [all_present|].
  apply non_increasing_Sorted. repeat constructor.
  eexists _, _. repeat split; reflexivity.
Defined.

Lemma filter_and_sort_articles_missing_published_witness :
  filter_and_sort_articles [0; 1; 3] sample_bare =
    Raise (KeyError "published") sample_bare.
Proof.
  refine (filter_and_sort_articles_missing_published sample_bare [0] [3] 1 _
            _ eq_refl eq_refl).
  all_present.
Defined.

Lemma filter_and_sort_articles_null_published_witness :
  filter_and_sort_articles [0; 3] sample_bare = Raise TypeError sample_bare.
Proof.
  apply filter_and_sort_articles_null_published;
    [simpl; lia | all_present | right; left; reflexivity].
Defined.

(** ** The scorer and the adjuster *)

Lemma for_each_app_Return body l1 l2 w u w1 :
  for_each body l1 w = Return u w1 →
  for_each body (l1 ++ l2) w = for_each body l2 w1.
Proof.
  revert w. induction l1 as [|a l1 IH]; intros w; simpl.
  - by intros [= _ <-].
  - intros (? & w' & Ha & Hl)%bind_Return_inv.
    rewrite (bind_Return _ _ _ _ _ Ha). by apply IH.
Qed.

Lemma title_text_ready w l :
  Forall (λ a, is_Some (title w a)) l → Forall (ready text_title w) l.
Proof.
  intros H. eapply Forall_impl; [exact H|].
  intros a [t (d & ? & ?)%title_ready]. exists d. split; [done|]. by exists t.
Qed.

(** X11.  When an article of the input has no [title], those before it
    having a text title, the scorer raises [KeyError] for [title]; the
    articles before it have been scored by then and stay scored, and the
    classifier is not called for the others. *)
Theorem analyze_sentiment_missing_title
    (sentiment_model : string → string * float) (w : world)
    (pre post : list loc) (a : loc) (d0 : dict) :
  Forall (λ a, is_Some (title w a)) pre →
  heap w !! a = Some d0 → d0 !! "title" = None →
  ∃ w1, analyze_sentiment sentiment_model pre w = Return pre w1 ∧
        analyze_sentiment sentiment_model (pre ++ a :: post) w =
          Raise (KeyError "title") w1.
Proof.
  intros Hpre%title_text_ready Ha Hd0.
  set (w1 := World (update_at (scored sentiment_model) pre (heap w))
                   (calls w ++ pre ≫= log_of title_call w)).
  assert (for_each (analyze_article sentiment_model) pre w = Return tt w1)
    as Hloop by (by apply for_each_analyze_Return).
  exists w1. split; [by apply analyze_sentiment_Return|].
  unfold analyze_sentiment. rewrite bind_unfold.
  rewrite (for_each_app_Return _ _ _ _ _ _ Hloop). simpl.
  rewrite bind_unfold. unfold analyze_article at 1.
  rewrite bind_unfold. unfold getitem, deref. rewrite bind_unfold. simpl.
  rewrite update_at_lookup, Ha. simpl. unfold dict_getitem.
  case_bool_decide; [rewrite scored_lookup_ne by done|]; by rewrite Hd0.
Qed.

Lemma log_of_update_at f log l w c :
  (∀ d, log (f d) = log d) →
  ∀ a, log_of log (World (update_at f l (heap w)) c) a = log_of log w a.
Proof.
  intros Hlog a. unfold log_of. simpl. rewrite update_at_lookup.
  destruct (heap w !! a) as [d|]; simpl; [|done]. by case_bool_decide.
Qed.

Lemma ready_update_at f pre l w c a :
  (∀ d, pre (f d) ↔ pre d) →
  ready pre (World (update_at f l (heap w)) c) a ↔ ready pre w a.
Proof.
  intros Hpre. unfold ready. simpl. rewrite update_at_lookup.
  destruct (heap w !! a) as [d|]; simpl; [|naive_solver].
  split; intros (d' & [= <-] & Hd'); eexists; (split; [done|]);
    case_bool_decide; try done; by apply Hpre.
Qed.

(** X12.  Scoring a list a second time calls the classifier once more
    per article, on the same titles, and leaves every record as the first
    scoring left it. *)
Theorem analyze_sentiment_again
    (sentiment_model : string → string * float) (w : world)
    (articles : list loc) :
  Forall (λ a, is_Some (title w a)) articles →
  ∃ w1 w2 titles,
    analyze_sentiment sentiment_model articles w = Return articles w1 ∧
    analyze_sentiment sentiment_model articles w1 = Return articles w2 ∧
    Forall2 (λ a t, title w a = Some t) articles titles ∧
    calls w1 = calls w ++ titles ∧
    calls w2 = calls w1 ++ titles ∧
    heap w2 = heap w1.
Proof.
  intros Htitle. pose proof (title_text_ready _ _ Htitle) as Hready.
  set (titles := articles ≫= log_of title_call w).
  set (w1 := World (update_at (scored sentiment_model) articles (heap w))
                   (calls w ++ titles)).
  exists w1, (World (heap w1) (calls w1 ++ titles)), titles.
  split; [by apply analyze_sentiment_Return|].
  split; [|split; [by apply title_calls | done]].
  apply analyze_sentiment_Return. split; [done|]. split.
  - eapply Forall_impl; [exact Hready|]. intros a Ha.
    apply ready_update_at; [apply text_title_scored | done].
  - simpl. rewrite update_at_idemp by apply scored_idemp. do 2 f_equal.
    apply list_bind_ext; [|done]. intros a. symmetry.
    apply log_of_update_at, title_call_scored.
Qed.

(** X13.  When an article of the input has no [sentiment], those before
    it having one, the adjuster raises [KeyError] for [sentiment]; the
    articles before it have been adjusted by then. *)
Theorem adjust_subjectivity_unscored (w : world) (pre post : list loc)
    (a : loc) (d0 : dict) :
  Forall (λ a, is_Some (field w "sentiment" a)) pre →
  heap w !! a = Some d0 → d0 !! "sentiment" = None →
  ∃ w1, adjust_subjectivity pre w = Return pre w1 ∧
        adjust_subjectivity (pre ++ a :: post) w =
          Raise (KeyError "sentiment") w1.
Proof.
  intros Hpre Ha Hd0.
  set (w1 := World (update_at adjusted pre (heap w)) (calls w)).
  assert (adjust_subjectivity pre w = Return pre w1) as Hadj.
  { apply adjust_subjectivity_Return. split; [done|]. split; [|done].
    eapply Forall_impl; [exact Hpre|]. intros b. by apply sentiment_ready. }
  exists w1. split; [done|].
  unfold adjust_subjectivity in Hadj.
  apply bind_Return_inv in Hadj as ([] & w1' & Hloop & Heq).
  injection Heq as Hw. rewrite Hw in Hloop.
  unfold adjust_subjectivity. rewrite bind_unfold.
  rewrite (for_each_app_Return _ _ _ _ _ _ Hloop). simpl.
  rewrite bind_unfold. unfold adjust_article at 1.
  rewrite bind_unfold. unfold getitem, deref. rewrite bind_unfold. simpl.
  rewrite update_at_lookup, Ha. simpl. unfold dict_getitem.
  case_bool_decide; [rewrite adjusted_sentiment|]; by rewrite Hd0.
Qed.

(** X14.  Scoring and then adjusting leaves every article of the list
    with the label of the classifier as [sentiment], and as
    [subjectivity] the float [0.1] when that label is ["NEUTRAL"] and the
    score of the classifier otherwise. *)
Theorem analyze_then_adjust
    (sentiment_model : string → string * float) (w : world)
    (articles : list loc) :
  Forall (λ a, is_Some (title w a)) articles →
  ∃ w1 w2,
    analyze_sentiment sentiment_model articles w = Return articles w1 ∧
    adjust_subjectivity articles w1 = Return articles w2 ∧
    ∀ a, a ∈ articles → ∃ t,
      title w a = Some t ∧
      field w2 "sentiment" a = Some (VStr (sentiment_model t).1) ∧
      field w2 "subjectivity" a =
        Some (VFloat (if String.eqb (sentiment_model t).1 "NEUTRAL"
                      then neutral_subjectivity
                      else (sentiment_model t).2)).
Proof.
  intros Htitle. pose proof (title_text_ready _ _ Htitle) as Hready.
  set (w1 := World (update_at (scored sentiment_model) articles (heap w))
                   (calls w ++ articles ≫= log_of title_call w)).
  set (w2 := World (update_at adjusted articles (heap w1)) (calls w1)).
  assert (∀ a, a ∈ articles → ∃ t d,
            title w a = Some t ∧ heap w !! a = Some d ∧
            d !! "title" = Some (VStr t) ∧
            heap w1 !! a = Some (scored sentiment_model d)) as Hrec.
  { intros a Ha. rewrite Forall_forall in Htitle.
    destruct (Htitle a Ha) as [t Ht]. exists t.
    pose proof Ht as (d & Hd & Hdt)%title_ready. exists d.
    repeat split; try done. simpl. rewrite update_at_lookup, Hd. simpl.
    by rewrite bool_decide_eq_true_2. }
  exists w1, w2. split; [by apply analyze_sentiment_Return|]. split.
  - apply adjust_subjectivity_Return. split; [done|]. split; [|done].
    apply Forall_forall. intros a Ha.
    destruct (Hrec a Ha) as (t & d & _ & _ & Hdt & Hw1).
    exists (scored sentiment_model d). split; [done|].
    unfold scored. rewrite Hdt. by rewrite lookup_insert_ne, lookup_insert_eq.
  - intros a Ha. destruct (Hrec a Ha) as (t & d & Ht & _ & Hdt & Hw1).
    exists t. split; [done|]. simpl in Hw1. unfold field. simpl.
    rewrite !(update_at_lookup adjusted), !Hw1. simpl.
    rewrite bool_decide_eq_true_2 by done.
    unfold adjusted, scored. rewrite Hdt.
    rewrite (lookup_insert_ne _ "subjectivity" "sentiment") by done.
    rewrite lookup_insert_eq. simpl.
    destruct (String.eqb (sentiment_model t).1 "NEUTRAL").
    + by rewrite lookup_insert_eq, lookup_insert_ne, lookup_insert_ne,
        lookup_insert_eq.
    + by rewrite lookup_insert_eq, lookup_insert_ne, lookup_insert_eq.
Qed.

Lemma analyze_sentiment_missing_title_witness :
  ∃ w1, analyze_sentiment first_byte_model [0] sample_bare = Return [0] w1 ∧
        analyze_sentiment first_byte_model [0; 2; 1] sample_bare =
          Raise (KeyError "title") w1.
Proof.
  refine (analyze_sentiment_missing_title first_byte_model sample_bare
            [0] [1] 2 _ _ eq_refl eq_refl).
  all_present.
Defined.

Lemma analyze_sentiment_again_witness :
  ∃ w1 w2 titles,
    analyze_sentiment first_byte_model [0; 1] sample_world = Return [0; 1] w1 ∧
    analyze_sentiment first_byte_model [0; 1] w1 = Return [0; 1] w2 ∧
    Forall2 (λ a t, title sample_world a = Some t) [0; 1] titles ∧
    calls w1 = calls sample_world ++ titles ∧
    calls w2 = calls w1 ++ titles ∧
    heap w2 = heap w1.
Proof.
  apply analyze_sentiment_again. all_present.
Defined.

Lemma adjust_subjectivity_unscored_witness :
  ∃ w1, adjust_subjectivity [0; 1] sample_mixed = Return [0; 1] w1 ∧
        adjust_subjectivity [0; 1; 2; 3] sample_mixed =
          Raise (KeyError "sentiment") w1.
Proof.
  refine (adjust_subjectivity_unscored sample_mixed [0; 1] [3] 2 _ _
            eq_refl eq_refl).
  all_present.
Defined.

Lemma analyze_then_adjust_witness :
  ∃ w1 w2,
    analyze_sentiment first_byte_model [0; 1] sample_world = Return [0; 1] w1 ∧
    adjust_subjectivity [0; 1] w1 = Return [0; 1] w2 ∧
    field w2 "subjectivity" 0 = Some (VFloat neutral_subjectivity) ∧
    field w2 "subjectivity" 1 = Some (VFloat 0x1.cp-1%float).
Proof.
  destruct (analyze_then_adjust first_byte_model sample_world [0; 1])
    as (w1 & w2 & Han & Had & Hrec); [all_present|].
  exists w1, w2. split; [exact Han|]. split; [exact Had|]. split.
  - destruct (Hrec 0) as (t & Ht & _ & Hs); [left|].
    injection Ht as <-. exact Hs.
  - destruct (Hrec 1) as (t & Ht & _ & Hs); [right; left|].
    injection Ht as <-. exact Hs.
Defined.

(** ** The keyword filter, further *)

Lemma filter_ext_elem {A} (P Q : A → Prop) `{!∀ x, Decision (P x)}
    `{!∀ x, Decision (Q x)} (l : list A) :
  (∀ x, x ∈ l → P x ↔ Q x) → filter P l = filter Q l.
Proof.
  induction l as [|x l IH]; intros Hl; [done|].
  rewrite !filter_cons, IH by (intros y ?; apply Hl; by right).
  pose proof (Hl x ltac:(left)) as Hx.
  destruct (decide (P x)), (decide (Q x)); naive_solver.
Qed.

Section keyword_filter_further.

Variable lower : string → string.

Lemma filter_loop_app pre rest keywords acc w :
  Forall (λ a, is_Some (verdict lower w keywords a)) pre →
  filter_loop lower (pre ++ rest) keywords acc w =
  filter_loop lower rest keywords
    (acc ++ filter (λ a, verdict lower w keywords a = Some true) pre) w.
Proof.
  revert acc. induction pre as [|a l IH]; intros acc Hall; simpl.
  - by rewrite app_nil_r.
  - apply Forall_cons in Hall as [[b Hb] Hl]. rewrite filter_cons.
    rewrite bind_unfold. unfold deref.
    destruct (decide (verdict lower w keywords a = Some true)) as [Ht|Ht];
      unfold verdict in Hb, Ht; destruct (heap w !! a) as [d|]; simpl in *;
      try done; rewrite bind_unfold;
      destruct (any_keyword lower _ _ keywords) as [e|b']; simpl in *;
      try done.
    + injection Ht as ->. rewrite IH by done. by rewrite <- app_assoc.
    + destruct b'; [done|]. by rewrite IH.
Qed.

Lemma verdict_no_keywords w a :
  is_Some (heap w !! a) → verdict lower w [] a = Some false.
Proof. intros [d Hd]. unfold verdict. by rewrite Hd. Qed.

(** X15.  Without keywords the filter reads no title: on any articles of
    the store, whatever their members are, it returns the empty list. *)
Theorem filter_articles_by_keywords_no_keywords (w : world)
    (articles : list loc) :
  Forall (λ a, is_Some (heap w !! a)) articles →
  filter_articles_by_keywords lower articles [] w = Return [] w.
Proof.
  intros Hall. apply filter_articles_by_keywords_Return.
  split; [done|]. split.
  - eapply Forall_impl; [exact Hall|]. intros a Ha.
    rewrite verdict_no_keywords by done. eauto.
  - symmetry. induction Hall as [|a l Ha _ IH]; [done|].
    rewrite filter_cons, verdict_no_keywords by done.
    by rewrite decide_False.
Qed.

(** X16.  With at least one keyword, the first article whose title is
    there but is not text, those before it having text members, ends the
    filter with an [AttributeError]: no list is returned, the store is as
    it was. *)
Theorem filter_articles_by_keywords_title_not_text (w : world)
    (pre post : list loc) (a : loc) (d : dict) (v : value)
    (keyword : string) (keywords : list string) :
  Forall (ready text_members w) pre →
  heap w !! a = Some d → d !! "title" = Some v → key_str v = None →
  filter_articles_by_keywords lower (pre ++ a :: post) (keyword :: keywords) w
  = Raise AttributeError w.
Proof.
  intros Hpre Ha Ht Hv. unfold filter_articles_by_keywords.
  rewrite filter_loop_app.
  2:{ eapply Forall_impl; [exact Hpre|]. intros b Hb.
      destruct (verdict_text lower w (keyword :: keywords) b Hb) as (c & -> & _).
      eauto. }
  simpl. rewrite bind_unfold. unfold deref. rewrite Ha. simpl.
  unfold dict_get at 1. rewrite Ht. rewrite bind_unfold.
  destruct v; simpl in *; done.
Qed.

(** X17.  A description that is there but is not text is looked at only
    when the first keyword is not in the title.  Let the title of an
    article be text: if the first keyword occurs in it, the article is
    kept whatever its description is (the articles after it being
    text); if not, a description that is not text ends the filter with
    an [AttributeError]. *)
Theorem filter_articles_by_keywords_description_not_text (w : world)
    (pre post : list loc) (a : loc) (d : dict) (t : string) (v : value)
    (keyword : string) (keywords : list string) :
  Forall (ready text_members w) pre →
  heap w !! a = Some d → d !! "title" = Some (VStr t) →
  d !! "description" = Some v → key_str v = None →
  (occurs_in (lower keyword) (lower t) → Forall (ready text_members w) post →
   ∃ out, filter_articles_by_keywords lower (pre ++ a :: post)
            (keyword :: keywords) w = Return out w ∧ a ∈ out) ∧
  (¬ occurs_in (lower keyword) (lower t) →
   filter_articles_by_keywords lower (pre ++ a :: post) (keyword :: keywords) w
   = Raise AttributeError w).
Proof.
  intros Hpre Ha Ht Hs Hv.
  assert (∀ l, Forall (ready text_members w) l →
            Forall (λ b, is_Some (verdict lower w (keyword :: keywords) b)) l)
    as Hok.
  { intros l Hl. eapply Forall_impl; [exact Hl|]. intros b Hb.
    destruct (verdict_text lower w (keyword :: keywords) b Hb) as (c & -> & _).
    eauto. }
  rewrite <- contains_occurs. split; [intros Hocc Hpost | intros Hocc].
  - assert (verdict lower w (keyword :: keywords) a = Some true) as Hadm.
    { unfold verdict. rewrite Ha. simpl. unfold dict_get at 1. rewrite Ht.
      simpl. by rewrite Hocc. }
    eexists. split.
    + apply filter_articles_by_keywords_Return. split; [done|].
      split; [|reflexivity].
      apply Forall_app. split; [by apply Hok|].
      apply Forall_cons. split; [by rewrite Hadm | by apply Hok].
    + apply list_elem_of_filter. split; [done|].
      apply elem_of_app. right. left.
  - apply not_true_is_false in Hocc. unfold filter_articles_by_keywords.
    rewrite filter_loop_app by by apply Hok.
    simpl. rewrite bind_unfold. unfold deref. rewrite Ha. simpl.
    unfold dict_get. rewrite Ht, Hs. rewrite bind_unfold. simpl.
    rewrite Hocc. destruct v; simpl in *; done.
Qed.

Lemma matches_app w k1 k2 a :
  matches lower w (k1 ++ k2) a ↔ matches lower w k1 a ∨ matches lower w k2 a.
Proof.
  unfold matches, keyword_match. split.
  - intros (d & Ha & k & t & s & [Hk|Hk]%elem_of_app & H);
      [left | right]; exists d; split; try done; by exists k, t, s.
  - intros [(d & Ha & k & t & s & Hk & H)|(d & Ha & k & t & s & Hk & H)];
      exists d; split; try done; exists k, t, s;
      (split; [apply elem_of_app; auto | done]).
Qed.

(** X18.  On articles whose title and description are text where
    present, filtering by two lists of keywords put together keeps, in
    the order of the input, the articles that one of the two lists
    keeps. *)
Theorem filter_articles_by_keywords_union (w : world) (articles : list loc)
    (keywords1 keywords2 : list string) :
  Forall (ready text_members w) articles →
  ∃ out1 out2,
    filter_articles_by_keywords lower articles keywords1 w = Return out1 w ∧
    filter_articles_by_keywords lower articles keywords2 w = Return out2 w ∧
    filter_articles_by_keywords lower articles (keywords1 ++ keywords2) w =
      Return (filter (λ a, a ∈ out1 ∨ a ∈ out2) articles) w.
Proof.
  intros Hall. do 2 eexists.
  split; [by apply filter_articles_by_keywords_text|].
  split; [by apply filter_articles_by_keywords_text|].
  rewrite (filter_articles_by_keywords_text lower _ _ _ Hall). f_equal.
  apply filter_ext_elem. intros a Ha. rewrite !list_elem_of_filter.
  rewrite Forall_forall in Hall.
  destruct (verdict_text lower w (keywords1 ++ keywords2) a (Hall a Ha))
    as (b & -> & Hb).
  destruct (verdict_text lower w keywords1 a (Hall a Ha)) as (b1 & -> & Hb1).
  destruct (verdict_text lower w keywords2 a (Hall a Ha)) as (b2 & -> & Hb2).
  rewrite matches_app, <- Hb1, <- Hb2 in Hb. naive_solver.
Qed.

(** X19.  Whenever the filter returns, filtering its result again by the
    same keywords returns that result unchanged. *)
Theorem filter_articles_by_keywords_again (w w' : world)
    (articles out : list loc) (keywords : list string) :
  filter_articles_by_keywords lower articles keywords w = Return out w' →
  filter_articles_by_keywords lower out keywords w' = Return out w'.
Proof.
  intros (-> & Hall & ->)%filter_articles_by_keywords_Return.
  apply filter_articles_by_keywords_Return. split; [done|]. split.
  - rewrite Forall_forall in Hall |- *.
    intros a [_ Ha]%list_elem_of_filter. auto.
  - rewrite list_filter_filter. apply list_filter_iff. naive_solver.
Qed.

End keyword_filter_further.

Ltac all_text :=
  repeat (constructor; [eexists; split; [reflexivity|split; present]|]);
  constructor.

Lemma filter_articles_by_keywords_no_keywords_witness :
  Forall (λ a, is_Some (heap sample_bare !! a)) [0; 1; 2; 3] ∧
  filter_articles_by_keywords lower_ru [0; 1; 2; 3] [] sample_bare =
    Return [] sample_bare.
Proof.
  assert (Forall (λ a, is_Some (heap sample_bare !! a)) [0; 1; 2; 3]) as H
    by all_present.
  split; [exact H|].
  exact (filter_articles_by_keywords_no_keywords lower_ru sample_bare _ H).
Defined.

Lemma filter_articles_by_keywords_title_not_text_witness :
  filter_articles_by_keywords lower_ru [0; 1; 3; 2] ["РЖД"] sample_bare =
    Raise AttributeError sample_bare.
Proof.
  refine (filter_articles_by_keywords_title_not_text lower_ru sample_bare
            [0; 1] [2] 3 _ VNone "РЖД" [] _ eq_refl eq_refl eq_refl).
  all_text.
Defined.

Lemma filter_articles_by_keywords_description_not_text_witness :
  (∃ out, filter_articles_by_keywords lower_ru [2; 0] ["РЖД"] sample_described
            = Return out sample_described ∧ 0 ∈ out) ∧
  filter_articles_by_keywords lower_ru [2; 1; 0] ["РЖД"] sample_described
    = Raise AttributeError sample_described.
Proof.
  split.
  - refine (proj1 (filter_articles_by_keywords_description_not_text lower_ru
                     sample_described [2] [] 0 _ "РЖД объявила тендер" VNone
                     "РЖД" [] _ eq_refl eq_refl eq_refl eq_refl) _ _).
    + all_text.
    + apply contains_occurs. vm_compute. reflexivity.
    + constructor.
  - refine (proj2 (filter_articles_by_keywords_description_not_text lower_ru
                     sample_described [2] [0] 1 _ "Курс валют" VNone
                     "РЖД" [] _ eq_refl eq_refl eq_refl eq_refl) _).
    + all_text.
    + rewrite <- contains_occurs. vm_compute. discriminate.
Defined.

Lemma filter_articles_by_keywords_union_witness :
  ∃ out1 out2,
    filter_articles_by_keywords lower_ru [0; 1; 2] ["РЖД"] sample_world
      = Return out1 sample_world ∧
    filter_articles_by_keywords lower_ru [0; 1; 2] ["погода"] sample_world
      = Return out2 sample_world ∧
    filter_articles_by_keywords lower_ru [0; 1; 2] ["РЖД"; "погода"]
      sample_world
      = Return (filter (λ a, a ∈ out1 ∨ a ∈ out2) [0; 1; 2]) sample_world.
Proof.
  apply (filter_articles_by_keywords_union lower_ru sample_world
           [0; 1; 2] ["РЖД"] ["погода"]).
  all_text.
Defined.

Lemma filter_articles_by_keywords_again_witness :
  filter_articles_by_keywords lower_ru [0] ["РЖД"] sample_world =
    Return [0] sample_world.
Proof.
  apply (filter_articles_by_keywords_again lower_ru sample_world sample_world
           [0; 1; 2] [0] ["РЖД"]).
  vm_compute. reflexivity.
Defined.

(** ** The assembler, further *)

Lemma fetch_news_gets_through session_get query w l w' :
  fetch_news session_get query w = Return l w' →
  gets_through (session_get query).
Proof.
  unfold fetch_news, fetch_try, gets_through.
  destruct (session_get query) as [e|r]; simpl; [done|].
  destruct (is_error_status r); simpl; [by left|].
  rewrite bind_unfold. simpl. unfold response_articles. rewrite bind_unfold.
  destruct (body r) as [|[raws|]]; simpl; [done| |by right].
  unfold mret, M_ret. intros H. right.
  apply (fetched_articles_returns raws w). eauto.
Qed.

Lemma filter_and_sort_articles_ordered w articles out w' :
  Forall (λ a, is_Some (published w a)) articles →
  filter_and_sort_articles articles w = Return out w' →
  non_increasing w out.
Proof.
  intros Hpub. unfold filter_and_sort_articles.
  intros (keyed & w1 & [-> ->]%published_keys_Return & H)%bind_Return_inv.
  apply bind_Return_inv in H as (s & w2 & [Hs ->]%lift_Return & [= <- <-]).
  destruct (sort_desc_str (with_key w <$> articles)) as (s' & Hs' & Hsorted & _).
  { apply Forall_fmap. eapply Forall_impl; [exact Hpub|].
    intros a [p Hp]. exists p. by apply key_str_published. }
  assert (s' = s) as -> by congruence.
  destruct (with_key_Permutation w articles s) as [Heq _];
    [by apply sort_desc_Permutation|].
  apply non_increasing_Sorted, Sorted_with_key. by rewrite <- Heq.
Qed.

Section assembler_further.

Variable lower : string → string.
Variable sentiment_model : string → string * float.

Lemma enriched_members d :
  enriched sentiment_model d →
  ∃ t u p, d !! "title" = Some (VStr t) ∧ d !! "link" = Some u ∧
           d !! "published" = Some p ∧
           d !! "sentiment" = Some (VStr (sentiment_model t).1) ∧
           d !! "subjectivity" =
             Some (VFloat (if String.eqb (sentiment_model t).1 "NEUTRAL"
                           then neutral_subjectivity
                           else (sentiment_model t).2)).
Proof.
  intros (d0 & (t0 & u & p & ->) & [t Ht] & ->).
  assert (t0 = VStr t) as -> by (by injection Ht).
  exists t, u, p. unfold adjusted, scored.
  assert (fetched_record (VStr t) u p !! "title" = Some (VStr t)) as -> by done.
  rewrite (lookup_insert_ne _ "subjectivity" "sentiment") by done.
  rewrite lookup_insert_eq. simpl.
  destruct (String.eqb (sentiment_model t).1 "NEUTRAL");
    repeat split;
    repeat (rewrite lookup_insert_eq || rewrite lookup_insert_ne by done);
    reflexivity.
Qed.

(** X20.  [main] returns only if each of its three fetches got through:
    one request that raises, or one good response whose body cannot be
    decoded or holds an article without [title], [url] or [publishedAt],
    and no bundle comes out. *)
Theorem main_needs_every_fetch (session_get : string → get_outcome)
    (w w' : world) (b : bundle) :
  main lower sentiment_model session_get w = Return b w' →
  Forall (λ q, gets_through (session_get q)) topic_queries.
Proof.
  intros (v & h & r & w1 & w2 & w3 & w4 & Hv & Hh & Hr & _)%main_Return.
  unfold topic_queries. repeat apply Forall_cons_2; [| | |constructor];
    eapply fetch_news_gets_through; eassumption.
Qed.

(** X21.  The records of a run are shared, not copied: when [main]
    returns, [unique_articles] holds the same articles as
    [analyzed_articles], each once, and in the store that [main] leaves
    every article of [unique_articles] carries the label of the classifier
    for its title as [sentiment], and as [subjectivity] the float [0.1]
    when that label is ["NEUTRAL"] and the score otherwise. *)
Theorem main_unique_articles_enriched (session_get : string → get_outcome)
    (w w' : world) (b : bundle) :
  main lower sentiment_model session_get w = Return b w' →
  NoDup (unique_articles b) ∧
  unique_articles b ≡ₚ analyzed_articles b ∧
  ∀ a, a ∈ unique_articles b → ∃ t,
    title w' a = Some t ∧
    field w' "sentiment" a = Some (VStr (sentiment_model t).1) ∧
    field w' "subjectivity" a =
      Some (VFloat (if String.eqb (sentiment_model t).1 "NEUTRAL"
                    then neutral_subjectivity
                    else (sentiment_model t).2)).
Proof.
  intros Hrun%main_Return.
  destruct (pipeline_run_records _ _ _ _ _ _ Hrun) as (Hnd & Hperm & Henr).
  split; [by rewrite <- Hperm|]. split; [done|].
  intros a Ha. rewrite <- Hperm in Ha. rewrite Forall_forall in Henr.
  destruct (Henr a Ha) as (d & Hd & Hmem).
  destruct (enriched_members d Hmem) as (t & u & p & Ht & _ & _ & Hs & Hsub).
  exists t. split; [by eapply str_field_lookup|].
  unfold field. rewrite Hd. simpl. by rewrite Hs, Hsub.
Qed.

(** X22.  When [main] returns, the classifier has been called once for
    each analyzed article, in the order of [analyzed_articles], on the
    title of that article, and not otherwise: the calls of a run are as
    many as its unique articles. *)
Theorem main_classifier_calls (session_get : string → get_outcome)
    (w w' : world) (b : bundle) :
  main lower sentiment_model session_get w = Return b w' →
  ∃ titles,
    Forall2 (λ a t, title w' a = Some t) (analyzed_articles b) titles ∧
    calls w' = calls w ++ titles ∧
    length titles = length (unique_articles b).
Proof.
  intros Hrun%main_Return.
  destruct (pipeline_run_records _ _ _ _ _ _ Hrun) as (_ & Hperm & _).
  destruct Hrun as (v & h & r & w1 & w2 & w3 & w4 & Hv & Hh & Hr & _
                    & (s & _ & Han) & Had & _).
  destruct (fetch_news_Return _ _ _ _ _ Hv) as (n1 & _ & Hc1 & _).
  destruct (fetch_news_Return _ _ _ _ _ Hh) as (n2 & _ & Hc2 & _).
  destruct (fetch_news_Return _ _ _ _ _ Hr) as (n3 & _ & Hc3 & _).
  apply analyze_sentiment_Return in Han as (Hs & Hready & ->). subst s.
  set (w4 := World (update_at (scored sentiment_model) (analyzed_articles b)
                      (heap w3))
                   (calls w3 ++ analyzed_articles b ≫= log_of title_call w3))
    in *.
  apply adjust_subjectivity_Return in Had as (_ & _ & ->).
  assert (Forall (λ a, is_Some (title w3 a)) (analyzed_articles b)) as Htitle.
  { eapply Forall_impl; [exact Hready|]. intros a (d & Hd & t & Ht).
    exists t. by eapply str_field_lookup. }
  exists (analyzed_articles b ≫= log_of title_call w3).
  pose proof (title_calls w3 _ Htitle) as Hcalls.
  split; [|split].
  - eapply Forall2_impl; [exact Hcalls|]. intros a t Ht. simpl in Ht.
    unfold title, str_field.
    rewrite (field_update_at adjusted (analyzed_articles b) w4 _ "title");
      [|done|intros d; by apply adjusted_lookup_ne].
    rewrite (field_update_at (scored sentiment_model) (analyzed_articles b)
               w3 w4 "title"); [exact Ht|done|].
    intros d. by apply scored_lookup_ne.
  - simpl. by rewrite Hc3, Hc2, Hc1.
  - rewrite <- (Forall2_length _ _ _ Hcalls). by rewrite Hperm.
Qed.

(** X23.  With the three topic queries answered, the analyzed articles
    and each of the three buckets are, in the store that [main] leaves, in
    non-increasing order of [published]. *)
Theorem main_buckets_ordered (session_get : string → get_outcome)
    (w w' : world) (b : bundle) :
  Forall (λ q, answered (session_get q)) topic_queries →
  main lower sentiment_model session_get w = Return b w' →
  non_increasing w' (analyzed_articles b) ∧
  non_increasing w' (filtered_vish b) ∧
  non_increasing w' (filtered_high_speed b) ∧
  non_increasing w' (filtered_rzd b).
Proof.
  intros Hq Hrun%main_Return.
  destruct Hrun as (v & h & r & w1 & w2 & w3 & w4 & Hv & Hh & Hr & Hu
                    & (s & Hs & Han) & Had & Hfv & Hfh & Hfr & _).
  destruct (fetches_answered session_get w Hq)
    as (v' & w1' & h' & w2' & r' & w3' & new & Hv' & Hh' & Hr' & Hheap & Hnew).
  rewrite Hv in Hv'. injection Hv' as <- <-.
  rewrite Hh in Hh'. injection Hh' as <- <-.
  rewrite Hr in Hr'. injection Hr' as <- <-.
  destruct (fetches_Return _ _ _ _ _ _ _ _ Hv Hh Hr) as (new' & Hheap' & Hall & _).
  assert (new' = new) as -> by (apply (app_inv_head (heap w)); congruence).
  pose proof Hu as (_ & Hsub & _)%unique_by_link_Return.
  assert (Forall (λ a, is_Some (published w3 a)) (unique_articles b)) as Hpub.
  { apply Forall_forall. intros a Ha%Hsub. rewrite Hall in Ha.
    apply fresh_lookup in Ha as (d & Hd & Hin). rewrite <- Hheap in Hd.
    rewrite Forall_forall in Hnew.
    destruct (fetched_text_fields d (Hnew d Hin)) as (t & u & p & _ & _ & Hp).
    exists p. by eapply str_field_lookup. }
  pose proof (filter_and_sort_articles_ordered _ _ _ _ Hpub Hs) as Hord.
  apply analyze_sentiment_Return in Han as (Hs' & _ & ->). subst s.
  set (w4 := World (update_at (scored sentiment_model) (analyzed_articles b)
                      (heap w3))
                   (calls w3 ++ analyzed_articles b ≫= log_of title_call w3))
    in *.
  pose proof Had as (_ & _ & Hw')%adjust_subjectivity_Return.
  assert (non_increasing w' (analyzed_articles b)) as Hord'.
  { eapply non_increasing_ext; [|exact Hord]. intros a.
    rewrite (field_update_at adjusted (analyzed_articles b) w4 w' "published");
      [|by rewrite Hw'|intros d; by apply adjusted_lookup_ne].
    apply (field_update_at (scored sentiment_model) (analyzed_articles b));
      [done|]. intros d. by apply scored_lookup_ne. }
  apply filter_articles_by_keywords_Return in Hfv as (_ & _ & ->).
  apply filter_articles_by_keywords_Return in Hfh as (_ & _ & ->).
  apply filter_articles_by_keywords_Return in Hfr as (_ & _ & ->).
  repeat split; [done|by apply non_increasing_filter..].
Qed.

End assembler_further.

Lemma main_needs_every_fetch_witness :
  Forall (λ q, gets_through (sample_get q)) topic_queries.
Proof.
  eapply (main_needs_every_fetch lower_ru first_byte_model sample_get
            (World [] [])).
  vm_compute. reflexivity.
Defined.

Lemma main_unique_articles_enriched_witness :
  ∃ b w',
    main lower_ru first_byte_model sample_get (World [] []) = Return b w' ∧
    NoDup (unique_articles b) ∧
    unique_articles b ≡ₚ analyzed_articles b ∧
    ∀ a, a ∈ unique_articles b → ∃ t,
      title w' a = Some t ∧
      field w' "sentiment" a = Some (VStr (first_byte_model t).1) ∧
      field w' "subjectivity" a =
        Some (VFloat (if String.eqb (first_byte_model t).1 "NEUTRAL"
                      then neutral_subjectivity
                      else (first_byte_model t).2)).
Proof.
  eexists _, _. split; [vm_compute; reflexivity|].
  eapply (main_unique_articles_enriched lower_ru first_byte_model sample_get
            (World [] [])).
  vm_compute. reflexivity.
Defined.

Lemma main_classifier_calls_witness :
  ∃ b w' titles,
    main lower_ru first_byte_model sample_get (World [] []) = Return b w' ∧
    Forall2 (λ a t, title w' a = Some t) (analyzed_articles b) titles ∧
    calls w' = [] ++ titles ∧
    length titles = length (unique_articles b).
Proof.
  destruct (main_classifier_calls lower_ru first_byte_model sample_get
              (World [] []) _ _ ltac:(vm_compute; reflexivity))
    as (titles & Hall & Hcalls & Hlen).
  eexists _, _, titles. split; [vm_compute; reflexivity|].
  split; [exact Hall|]. split; [exact Hcalls | exact Hlen].
Defined.

Lemma main_buckets_ordered_witness :
  ∃ b w',
    main lower_ru first_byte_model sample_get (World [] []) = Return b w' ∧
    non_increasing w' (analyzed_articles b) ∧
    non_increasing w' (filtered_vish b) ∧
    non_increasing w' (filtered_high_speed b) ∧
    non_increasing w' (filtered_rzd b).
Proof.
  eexists _, _. split; [vm_compute; reflexivity|].
  eapply (main_buckets_ordered lower_ru first_byte_model sample_get
            (World [] [])); [exact sample_get_answered|].
  vm_compute. reflexivity.
Defined.

(** ** The dashboard *)

Lemma append_assoc a b c : (a +:+ b) +:+ c = a +:+ b +:+ c.
Proof.
  induction a as [|x a IH]; [done|]. by rewrite !append_String, IH.
Qed.

Lemma append_empty_r a : a +:+ "" = a.
Proof. induction a as [|x a IH]; [done|]. by rewrite append_String, IH. Qed.

Lemma join_app l1 l2 : join (l1 ++ l2) = join l1 +:+ join l2.
Proof.
  induction l1 as [|s l1 IH]; [done|].
  unfold join in *. simpl. by rewrite IH, append_assoc.
Qed.

Lemma occurs_in_app_l k a b : occurs_in k a → occurs_in k (a +:+ b).
Proof.
  intros (pre & post & ->). exists pre, (post +:+ b).
  by rewrite !append_assoc.
Qed.

Lemma occurs_in_app_r k a b : occurs_in k b → occurs_in k (a +:+ b).
Proof.
  intros (pre & post & ->). exists (a +:+ pre), post.
  by rewrite !append_assoc.
Qed.

Lemma occurs_in_join k s l : s ∈ l → occurs_in k s → occurs_in k (join l).
Proof.
  intros Hs Hk. induction Hs as [s l|s s' l _ IH]; unfold join; simpl.
  - by apply occurs_in_app_l.
  - apply occurs_in_app_r. by apply IH.
Qed.

Lemma Forall_exists_Forall2 {A B} (P : A → B → Prop) (l : list A) :
  Forall (λ a, ∃ b, P a b) l → ∃ k, Forall2 P l k.
Proof.
  induction 1 as [|a l [b Hb] _ [k Hk]]; [by exists []|].
  exists (b :: k). by constructor.
Qed.

Section dashboard.

Variable float_str float_2f : float → string.
Variable dashboard_head dashboard_tail : string.

Lemma dashboard_item_item_of entry w :
  dashboard_item float_str float_2f entry w =
  match heap w !! entry with
  | Some d => lift (item_of float_str float_2f d) w
  | None => Raise (InvalidReference entry) w
  end.
Proof.
  unfold dashboard_item, item_of, getitem, deref.
  rewrite !bind_unfold. destruct (heap w !! entry) as [d|] eqn:Hd; [|done].
  simpl.
  destruct (dict_getitem d "sentiment") as [e|sentiment]; simpl; [done|].
  rewrite !bind_unfold, Hd. simpl.
  destruct (dict_getitem d "link") as [e|link]; simpl; [done|].
  rewrite !bind_unfold, Hd. simpl.
  destruct (dict_getitem d "title") as [e|title]; simpl; [done|].
  rewrite !bind_unfold, Hd. simpl.
  destruct (dict_getitem d "published") as [e|published]; simpl; [done|].
  rewrite !bind_unfold, Hd. simpl.
  destruct (dict_getitem d "subjectivity") as [e|subjectivity]; simpl; [done|].
  rewrite !bind_unfold.
  by destruct (format_2f float_2f subjectivity) as [e|sub].
Qed.

Lemma dashboard_item_renders entry w s :
  renders float_str float_2f w entry s →
  dashboard_item float_str float_2f entry w = Return s w.
Proof. intros (d & Hd & Hs). by rewrite dashboard_item_item_of, Hd, Hs. Qed.

Lemma dashboard_item_Return entry w s w' :
  dashboard_item float_str float_2f entry w = Return s w' →
  w' = w ∧ renders float_str float_2f w entry s.
Proof.
  rewrite dashboard_item_item_of. unfold renders.
  destruct (heap w !! entry) as [d|]; [|done].
  intros [Hs ->]%lift_Return. eauto.
Qed.

Lemma dashboard_items_renders data items dashboard w :
  Forall2 (renders float_str float_2f w) data items →
  dashboard_items float_str float_2f data dashboard w =
    Return (dashboard +:+ join items) w.
Proof.
  intros Hall. revert dashboard.
  induction Hall as [|a s data items Ha _ IH]; intros dashboard; simpl.
  - unfold join. simpl. by rewrite append_empty_r.
  - rewrite (bind_Return _ _ _ _ _ (dashboard_item_renders _ _ _ Ha)), IH.
    unfold join. simpl. by rewrite append_assoc.
Qed.

Lemma dashboard_items_Return data dashboard w html w' :
  dashboard_items float_str float_2f data dashboard w = Return html w' →
  w' = w ∧ ∃ items, Forall2 (renders float_str float_2f w) data items ∧
                    html = dashboard +:+ join items.
Proof.
  revert dashboard. induction data as [|a data IH]; intros dashboard; simpl.
  - intros [= <- <-]. split; [done|]. exists []. split; [constructor|].
    unfold join. simpl. by rewrite append_empty_r.
  - intros (s & w1 & [-> Hs]%dashboard_item_Return & H)%bind_Return_inv.
    apply IH in H as (-> & items & Hitems & ->). split; [done|].
    exists (s :: items). split; [by constructor|].
    unfold join. simpl. by rewrite append_assoc.
Qed.

Lemma create_dashboard_renders data items w :
  Forall2 (renders float_str float_2f w) data items →
  create_dashboard float_str float_2f dashboard_head dashboard_tail data w =
    Return (dashboard_head +:+ join items +:+ dashboard_tail) w.
Proof.
  intros Hall. unfold create_dashboard.
  rewrite (bind_Return _ _ _ _ _ (dashboard_items_renders _ _ _ _ Hall)).
  unfold mret, M_ret. by rewrite append_assoc.
Qed.

Lemma create_dashboard_Return data w html w' :
  create_dashboard float_str float_2f dashboard_head dashboard_tail data w =
    Return html w' →
  w' = w ∧ ∃ items, Forall2 (renders float_str float_2f w) data items ∧
                    html = dashboard_head +:+ join items +:+ dashboard_tail.
Proof.
  unfold create_dashboard.
  intros (dashboard & w1 & H & [= <- <-])%bind_Return_inv.
  apply dashboard_items_Return in H as (-> & items & Hitems & ->).
  split; [done|]. exists items. split; [done|]. by rewrite append_assoc.
Qed.

Lemma dashboard_items_raises pre items a d e post dashboard w :
  Forall2 (renders float_str float_2f w) pre items →
  heap w !! a = Some d → item_of float_str float_2f d = inl e →
  dashboard_items float_str float_2f (pre ++ a :: post) dashboard w = Raise e w.
Proof.
  intros Hall Ha He. revert dashboard.
  induction Hall as [|b s pre items Hb _ IH]; intros dashboard; simpl.
  - rewrite bind_unfold, dashboard_item_item_of, Ha, He. done.
  - by rewrite (bind_Return _ _ _ _ _ (dashboard_item_renders _ _ _ Hb)), IH.
Qed.

(** X24.  The dashboard of articles that were not scored cannot be made:
    at the first article without [sentiment], those before it rendering,
    [create_dashboard] raises [KeyError] for [sentiment] and no page is
    returned. *)
Theorem create_dashboard_unscored (w : world) (pre post : list loc)
    (a : loc) (d : dict) :
  Forall (λ b, ∃ s, renders float_str float_2f w b s) pre →
  heap w !! a = Some d → d !! "sentiment" = None →
  create_dashboard float_str float_2f dashboard_head dashboard_tail
    (pre ++ a :: post) w = Raise (KeyError "sentiment") w.
Proof.
  intros [items Hitems]%Forall_exists_Forall2 Ha Hd. unfold create_dashboard.
  rewrite bind_unfold.
  rewrite (dashboard_items_raises pre items a d (KeyError "sentiment")); [done..|].
  unfold item_of, dict_getitem. by rewrite Hd.
Qed.

(** X25.  The list of the page follows the list of articles: when two
    lists of articles render, each into the head, a body and the tail, the
    two lists one after the other render into the head, the first body,
    the second body and the tail; the store is never touched. *)
Theorem create_dashboard_app (w w1 w2 : world) (data1 data2 : list loc)
    (html1 html2 : string) :
  create_dashboard float_str float_2f dashboard_head dashboard_tail data1 w =
    Return html1 w1 →
  create_dashboard float_str float_2f dashboard_head dashboard_tail data2 w =
    Return html2 w2 →
  w1 = w ∧ w2 = w ∧
  ∃ body1 body2,
    html1 = dashboard_head +:+ body1 +:+ dashboard_tail ∧
    html2 = dashboard_head +:+ body2 +:+ dashboard_tail ∧
    create_dashboard float_str float_2f dashboard_head dashboard_tail
      (data1 ++ data2) w =
      Return (dashboard_head +:+ body1 +:+ body2 +:+ dashboard_tail) w.
Proof.
  intros (-> & items1 & H1 & ->)%create_dashboard_Return
         (-> & items2 & H2 & ->)%create_dashboard_Return.
  split; [done|]. split; [done|]. exists (join items1), (join items2).
  split; [done|]. split; [done|].
  rewrite (create_dashboard_renders (data1 ++ data2) (items1 ++ items2))
    by by apply Forall2_app.
  by rewrite join_app, append_assoc.
Qed.

Lemma li_template_anchor class sentiment link title published subjectivity :
  occurs_in ("<a href='" +:+ link +:+ "'>" +:+ title +:+ "</a>")
    (li_template class sentiment link title published subjectivity).
Proof.
  exists ("<li class='" +:+ class +:+ "' data-sentiment='" +:+ sentiment +:+ "'>"),
    (" - <span class='date'>" +:+ published +:+
     "</span> (Настроение: " +:+ sentiment +:+
     ", Субъективность: <span class='subjectivity'>" +:+ subjectivity +:+
     "</span>)</li>").
  unfold li_template. rewrite !append_assoc. reflexivity.
Qed.

(** X26.  Whenever [create_dashboard] returns, the store is as it was,
    and for every article of the list whose title and link are text the
    page holds the anchor made of that link and that title, character for
    character: nothing is escaped. *)
Theorem create_dashboard_verbatim (w w' : world) (data : list loc)
    (html : string) :
  create_dashboard float_str float_2f dashboard_head dashboard_tail data w =
    Return html w' →
  w' = w ∧
  ∀ a t u, a ∈ data → title w a = Some t → link w a = Some u →
    occurs_in ("<a href='" +:+ u +:+ "'>" +:+ t +:+ "</a>") html.
Proof.
  intros (-> & items & Hitems & ->)%create_dashboard_Return.
  split; [done|]. intros a t u Ha Ht Hu.
  apply list_elem_of_lookup in Ha as [i Hi].
  destruct (Forall2_lookup_l _ _ _ _ _ Hitems Hi) as (s & Hs & d & Hd & Hitem).
  apply occurs_in_app_r, occurs_in_app_l.
  apply (occurs_in_join _ s); [by eapply list_elem_of_lookup_2|].
  apply title_ready in Ht as (d' & Hd' & Ht).
  assert (d' = d) as -> by congruence.
  unfold link, str_field, field in Hu. rewrite Hd in Hu. simpl in Hu.
  destruct (d !! "link") as [[| u' |]|] eqn:Hl; try done. injection Hu as ->.
  unfold item_of, dict_getitem in Hitem. rewrite Ht, Hl in Hitem.
  destruct (d !! "sentiment"); [|done]. destruct (d !! "published"); [|done].
  destruct (d !! "subjectivity") as [sub|]; [|done].
  destruct (format_2f float_2f sub); [done|].
  injection Hitem as <-. apply li_template_anchor.
Qed.

End dashboard.

Section export.

Variable lower : string → string.
Variable sentiment_model : string → string * float.
Variable float_str float_2f : float → string.
Variable dashboard_head dashboard_tail : string.



End export.

Ltac all_render :=
  repeat (constructor; [eexists; eexists; split; reflexivity|]); constructor.

Lemma create_dashboard_unscored_witness :
  create_dashboard sample_float_str sample_float_2f sample_head sample_tail
    [0; 1; 2; 3] sample_mixed = Raise (KeyError "sentiment") sample_mixed.
Proof.
  refine (create_dashboard_unscored sample_float_str sample_float_2f
            sample_head sample_tail sample_mixed [0; 1] [3] 2 _ _
            eq_refl eq_refl).
  all_render.
Defined.

Lemma create_dashboard_app_witness :
  ∃ body1 body2,
    create_dashboard sample_float_str sample_float_2f sample_head sample_tail
      [0] sample_scored =
      Return (sample_head +:+ body1 +:+ sample_tail) sample_scored ∧
    create_dashboard sample_float_str sample_float_2f sample_head sample_tail
      [1] sample_scored =
      Return (sample_head +:+ body2 +:+ sample_tail) sample_scored ∧
    create_dashboard sample_float_str sample_float_2f sample_head sample_tail
      [0; 1] sample_scored =
      Return (sample_head +:+ body1 +:+ body2 +:+ sample_tail) sample_scored.
Proof.
  destruct (create_dashboard_app sample_float_str sample_float_2f
              sample_head sample_tail sample_scored _ _ [0] [1] _ _
              eq_refl eq_refl)
    as (_ & _ & body1 & body2 & H1 & H2 & H).
  exists body1, body2. split; [by rewrite <- H1|]. split; [by rewrite <- H2|].
  exact H.
Defined.

Lemma create_dashboard_verbatim_witness :
  ∃ html,
    create_dashboard sample_float_str sample_float_2f sample_head sample_tail
      [0; 1] sample_scored = Return html sample_scored ∧
    occurs_in "<a href='https://news.example/1'>РЖД объявила тендер</a>" html.
Proof.
  eexists. split; [reflexivity|].
  refine (proj2 (create_dashboard_verbatim sample_float_str sample_float_2f
                   sample_head sample_tail sample_scored _ [0; 1] _ eq_refl)
            0 _ _ _ eq_refl eq_refl).
  left.
Defined.

